(** * fitter: the garment colour-variation workflow

    A shallow embedding of [src/components/GarmentDetailModal.tsx] (the
    variation controller: [initialize], [handleGenerateVariations],
    [handleApply]) and of the part of [src/services/geminiService.ts] it
    calls ([getHarmonicColors], [recolorGarment], [handleApiResponse]).
    Further on come the other requests of the client ([generateModelImage],
    [generateVirtualTryOnImage], [generatePoseVariation]), the parsing of data
    URLs ([dataUrlToParts]), the image shown, the buttons of the modal and
    the branches of [urlToFile].

    The React state of the modal is a record; the handlers are programs of a
    small state-and-exception monad in which a thrown JavaScript error keeps
    every state update made before it, as in the source.  The browser and the
    remote model are oracles of a [World].  A handler is run from its call to
    its end; what another handler does between two of its awaits is not
    modelled.  A string is the UTF-8 form of the JavaScript string, so that a
    character beyond U+007F is the run of its two or three bytes. *)

From Stdlib Require Import String Ascii List Arith Lia Bool.
From stdpp Require Import base list strings.

Local Open Scope string_scope.
Local Open Scope list_scope.
Set Warnings "-register-all".

(** ** Data *)

(** The browser's [File]: a name, a MIME type and the bytes. *)
Record File : Type := mkFile {
  fileName : string;
  fileType : string;
  fileBytes : string;
}.

(** Modelled from the spec: [WardrobeItem] is declared in [../types], which is
    not among the sources; the spec lists its fields as an opaque id, a display
    name, an image location, a descriptive text and a brand. *)
Module Item.
Record t : Type := mk {
  id : string;
  name : string;
  url : string;
  description : string;
  brand : string;
}.
End Item.
Abbreviation WardrobeItem := Item.t.

(** [status: 'original' | 'done' | 'generating' | 'error'] *)
Inductive Status : Type :=
| S_original
| S_done
| S_generating
| S_error.

Definition Status_eqb (a b : Status) : bool :=
  match a, b with
  | S_original, S_original | S_done, S_done
  | S_generating, S_generating | S_error, S_error => true
  | _, _ => false
  end.

(** [type Variation = { hex; url; file?; status }] *)
Record Variation : Type := mkVariation {
  hex : string;
  url : string;
  file : option File;
  status : Status;
}.

(** The four [useState] cells of [GarmentDetailModal]. *)
Record Modal : Type := mkModal {
  variations : list Variation;
  selectedVariationIndex : nat;
  isGenerating : bool;
  error : option string;
}.

(** What the component does to the outside, in the order it happens: the calls
    it makes to the service and to [urlToFile], the host callback and the
    console. *)
Inductive Event : Type :=
| EvGetHarmonicColors (garmentImage : File)
| EvRecolorGarment (garmentImage : File) (colorHex : string)
| EvUrlToFile (location filename : string)
| EvOnApply (garmentFile : File) (garmentInfo : WardrobeItem)
| EvConsoleError (message : string).

(** The modal's state, the number of answers the outside world has given so
    far, and the events so far (oldest first). *)
Record Machine : Type := mkMachine {
  modal : Modal;
  clock : nat;
  trace : list Event;
}.

(** ** Results and the handler monad *)

Inductive Outcome (A : Type) : Type :=
| Returned (a : A)
| Thrown (e : string).
Arguments Returned {A} a.
Arguments Thrown {A} e.

Definition M (A : Type) : Type := Machine -> Outcome A * Machine.

Definition ret {A} (a : A) : M A := fun m => (Returned a, m).

Definition throw {A} (e : string) : M A := fun m => (Thrown e, m).

Definition bind {A B} (c : M A) (k : A -> M B) : M B :=
  fun m =>
    match c m with
    | (Returned a, m1) => k a m1
    | (Thrown e, m1) => (Thrown e, m1)
    end.

(** [try { body } catch (e) { handler }] *)
Definition try_catch {A} (body : M A) (handler : string -> M A) : M A :=
  fun m =>
    match body m with
    | (Returned a, m1) => (Returned a, m1)
    | (Thrown e, m1) => handler e m1
    end.

(** [try { body } finally { cleanup }]: the cleanup runs on both exits and a
    throw of the body is thrown again after it. *)
Definition try_finally {A} (body : M A) (cleanup : M unit) : M A :=
  fun m =>
    match body m with
    | (r, m1) =>
        match cleanup m1 with
        | (Returned _, m2) => (r, m2)
        | (Thrown e, m2) => (Thrown e, m2)
        end
    end.

Declare Scope js_scope.
Delimit Scope js_scope with js.
Notation "x <- c ;; k" := (bind c (fun x => k))
  (at level 100, c at next level, right associativity) : js_scope.
Notation "c ;; k" := (bind c (fun _ => k))
  (at level 100, right associativity) : js_scope.
Local Open Scope js_scope.

(** [for (const x of xs) { body x }] *)
Fixpoint for_of {A} (xs : list A) (body : A -> M unit) : M unit :=
  match xs with
  | [] => ret tt
  | x :: rest => body x ;; for_of rest body
  end.

Definition emit (ev : Event) : M unit :=
  fun m => (Returned tt, mkMachine (modal m) (clock m) (trace m ++ [ev])).

(** One answer of the outside world: the oracle is asked at the current clock,
    which then advances; [None] is a rejected promise. *)
Definition await {A} (oracle : nat -> option A) (failure : string) : M A :=
  fun m =>
    let m1 := mkMachine (modal m) (S (clock m)) (trace m) in
    match oracle (clock m) with
    | Some a => (Returned a, m1)
    | None => (Thrown failure, m1)
    end.

Definition update (f : Modal -> Modal) : M unit :=
  fun m => (Returned tt, mkMachine (f (modal m)) (clock m) (trace m)).

Definition read {A} (f : Modal -> A) : M A :=
  fun m => (Returned (f (modal m)), m).

(** The state setters; [setVariations] takes the updater form
    [prev => ...]. *)
Definition setVariations (f : list Variation -> list Variation) : M unit :=
  update (fun s => mkModal (f (variations s)) (selectedVariationIndex s)
                           (isGenerating s) (error s)).

Definition setSelectedVariationIndex (i : nat) : M unit :=
  update (fun s => mkModal (variations s) i (isGenerating s) (error s)).

Definition setIsGenerating (b : bool) : M unit :=
  update (fun s => mkModal (variations s) (selectedVariationIndex s) b (error s)).

Definition setError (e : option string) : M unit :=
  update (fun s => mkModal (variations s) (selectedVariationIndex s)
                           (isGenerating s) e).

Definition console_error (message : string) : M unit :=
  emit (EvConsoleError message).

(** ** The generation client ([geminiService.ts]) *)

(** [{ inlineData: { mimeType, data } }] *)
Record InlineData : Type := mkInlineData {
  mimeType : string;
  data : string;
}.

(** A part of a candidate's content; [inlineData] may be absent. *)
Record ContentPart : Type := mkContentPart {
  inlineData : option InlineData;
}.

Record Candidate : Type := mkCandidate {
  parts : option (list ContentPart);      (* candidate.content?.parts *)
  finishReason : option string;
}.

Record PromptFeedback : Type := mkPromptFeedback {
  blockReason : option string;
  blockReasonMessage : option string;
}.

Record GenerateContentResponse : Type := mkResponse {
  promptFeedback : option PromptFeedback;
  candidates : option (list Candidate);
  text : option string;
}.

(** The value [JSON.parse] yields.  The items of an array are kept at the type
    the signature of [getHarmonicColors] declares for [result.colors]
    ([string[]]); the code never looks inside them. *)
Inductive JsonValue : Type :=
| JNull
| JBool (b : bool)
| JNumber (n : Z)
| JString (s : string)
| JArray (items : list string)
| JObject (fields : list (string * JsonValue)).

(** The request handed to [ai.models.generateContent]. *)
Record GenerateRequest : Type := mkRequest {
  model : string;
  requestParts : list InlineData;
  prompt : string;
  wantsJson : bool;       (* responseMimeType application/json, with the schema *)
}.

(** The outside: the browser reading a file into a part, the remote model, the
    JSON parser and the materialization of a URL.  The first argument of the
    first three oracles is the clock at which the question is asked, so the
    same question may be answered differently at different times. *)
Record World : Type := mkWorld {
  w_fileToPart : nat -> File -> option InlineData;
  w_generateContent : nat -> GenerateRequest -> option GenerateContentResponse;
  w_urlToFile : nat -> string -> string -> option File;
  w_JSON_parse : string -> option JsonValue;
}.

Definition imageModel : string := "gemini-2.5-flash-image-preview".
Definition textModel : string := "gemini-2.5-flash".

(** JavaScript truthiness of an optional string: [undefined] and the empty
    string are falsy. *)
Definition truthy_string (s : option string) : bool :=
  match s with
  | Some EmptyString => false
  | Some _ => true
  | None => false
  end.

(** The number of a byte. *)
Definition code (c : ascii) : nat := nat_of_ascii c.

(** White space and line terminators removed by [String.prototype.trim],
    those of one byte: tab, line feed, vertical tab, form feed, carriage
    return and space. *)
Definition is_space (c : ascii) : bool :=
  match nat_of_ascii c with
  | 9 | 10 | 11 | 12 | 13 | 32 => true
  | _ => false
  end.

(** The one of two bytes: U+00A0. *)
Definition is_space2 (c1 c2 : ascii) : bool :=
  Nat.eqb (code c1) 194 && Nat.eqb (code c2) 160.

(** Those of three bytes: U+1680, U+2000 to U+200A, U+2028, U+2029, U+202F,
    U+205F, U+3000 and U+FEFF. *)
Definition is_space3 (c1 c2 c3 : ascii) : bool :=
  (Nat.eqb (code c1) 225 && Nat.eqb (code c2) 154 && Nat.eqb (code c3) 128)
  || (Nat.eqb (code c1) 226 && Nat.eqb (code c2) 128
      && ((Nat.leb 128 (code c3) && Nat.leb (code c3) 138)
          || Nat.eqb (code c3) 168 || Nat.eqb (code c3) 169
          || Nat.eqb (code c3) 175))
  || (Nat.eqb (code c1) 226 && Nat.eqb (code c2) 129 && Nat.eqb (code c3) 159)
  || (Nat.eqb (code c1) 227 && Nat.eqb (code c2) 128 && Nat.eqb (code c3) 128)
  || (Nat.eqb (code c1) 239 && Nat.eqb (code c2) 187 && Nat.eqb (code c3) 191).

Fixpoint trim_start (s : string) : string :=
  match s with
  | EmptyString => EmptyString
  | String c1 r1 =>
      if is_space c1 then trim_start r1
      else
        match r1 with
        | String c2 r2 =>
            if is_space2 c1 c2 then trim_start r2
            else
              match r2 with
              | String c3 r3 =>
                  if is_space3 c1 c2 c3 then trim_start r3 else s
              | EmptyString => s
              end
        | EmptyString => s
        end
  end.

(** A string made of white space only. *)
Fixpoint all_space (s : string) : bool :=
  match s with
  | EmptyString => true
  | String c1 r1 =>
      if is_space c1 then all_space r1
      else
        match r1 with
        | String c2 r2 =>
            if is_space2 c1 c2 then all_space r2
            else
              match r2 with
              | String c3 r3 =>
                  if is_space3 c1 c2 c3 then all_space r3 else false
              | EmptyString => false
              end
        | EmptyString => false
        end
  end.

Fixpoint trim_end (s : string) : string :=
  match s with
  | EmptyString => EmptyString
  | String c rest =>
      if all_space s then EmptyString else String c (trim_end rest)
  end.

Definition trim (s : string) : string := trim_end (trim_start s).

(** [candidate.content?.parts?.find(part => part.inlineData)] followed by
    [imagePart?.inlineData]. *)
Fixpoint find_inlineData (ps : list ContentPart) : option InlineData :=
  match ps with
  | [] => None
  | p :: rest =>
      match inlineData p with
      | Some d => Some d
      | None => find_inlineData rest
      end
  end.

(** The loop over [response.candidates ?? []]: the first candidate that has an
    image part decides. *)
Fixpoint first_image (cs : list Candidate) : option InlineData :=
  match cs with
  | [] => None
  | c :: rest =>
      match find_inlineData (default [] (parts c)) with
      | Some d => Some d
      | None => first_image rest
      end
  end.

Definition dquote : string := String (ascii_of_nat 34) EmptyString.

Definition handleApiResponse (response : GenerateContentResponse) : Outcome string :=
  let blocked :=
    match promptFeedback response with
    | Some fb => if truthy_string (blockReason fb) then Some fb else None
    | None => None
    end in
  match blocked with
  | Some fb =>
      Thrown ("Request was blocked. Reason: " +:+ default EmptyString (blockReason fb) +:+ ". "
              +:+ (if truthy_string (blockReasonMessage fb)
                   then default EmptyString (blockReasonMessage fb) else EmptyString))
  | None =>
      match first_image (default [] (candidates response)) with
      | Some d => Returned ("data:" +:+ mimeType d +:+ ";base64," +:+ data d)
      | None =>
          let finish :=
            match candidates response with
            | Some (c :: _) => finishReason c
            | _ => None
            end in
          if truthy_string finish && negb (String.eqb (default EmptyString finish) "STOP")
          then Thrown ("Image generation stopped unexpectedly. Reason: "
                       +:+ default EmptyString finish
                       +:+ ". This often relates to safety settings.")
          else
            let textFeedback := trim <$> text response in
            Thrown ("The AI model did not return an image. "
                    +:+ (if truthy_string textFeedback
                         then "The model responded with text: " +:+ dquote
                              +:+ default EmptyString textFeedback +:+ dquote
                         else "This can happen due to safety filters or if the request is too complex. Please try a different image."))
      end
  end.

Section Service.
Context (W : World).

(** [fileToPart]: the browser reads the file as a data URL and splits it;
    either step may fail. *)
Definition fileToPart (f : File) : M InlineData :=
  await (fun t => w_fileToPart W t f) "fileToPart failed".

Definition generateContent (req : GenerateRequest) : M GenerateContentResponse :=
  await (fun t => w_generateContent W t req) "generateContent failed".

Definition harmonicPrompt : string :=
  "Analyze the main color of the clothing item in this image. Based on that color, generate an array of 4 complementary and aesthetically pleasing harmonic color hex codes. The background of the garment is transparent, so ignore it. Focus only on the garment itself. Return ONLY a valid JSON object.".

Definition recolorPrompt (colorHex : string) : string :=
  "Recolor the garment in this image to the hex code " +:+ colorHex
  +:+ ". The garment has a transparent background which you must preserve. Maintain the original texture, shadows, and details of the garment perfectly. Only change the color. Return ONLY the final image.".

Definition FALLBACK_COLORS : list string :=
  ["#A0D2DB"; "#7A6E9E"; "#E8A0BF"; "#B4E1D2"].

(** [result.colors]: a [TypeError] on [null], [undefined] ([None]) on a
    primitive, on an array and on an object without the property. *)
Fixpoint lookup_field (key : string) (fields : list (string * JsonValue))
  : option JsonValue :=
  match fields with
  | [] => None
  | (k, v) :: rest => if String.eqb k key then Some v else lookup_field key rest
  end.

Definition get_colors (result : JsonValue) : Outcome (option JsonValue) :=
  match result with
  | JNull => Thrown "TypeError: Cannot read properties of null"
  | JObject fields => Returned (lookup_field "colors" fields)
  | _ => Returned None
  end.

(** JavaScript truthiness of a parsed value. *)
Definition truthy (v : option JsonValue) : bool :=
  match v with
  | None | Some JNull | Some (JBool false) | Some (JNumber 0%Z)
  | Some (JString EmptyString) => false
  | Some _ => true
  end.

(** [Array.isArray(v) && v.length > 0], giving the array. *)
Definition nonempty_array (v : option JsonValue) : option (list string) :=
  match v with
  | Some (JArray (c :: cs)) => Some (c :: cs)
  | _ => None
  end.

(** The body of the [try] of [getHarmonicColors]. *)
Definition parse_colors (response : GenerateContentResponse) : Outcome (list string) :=
  match text response with
  | None => Thrown "TypeError: Cannot read properties of undefined"
  | Some t =>
      let jsonString := trim t in
      match w_JSON_parse W jsonString with
      | None => Thrown "SyntaxError"
      | Some result =>
          match get_colors result with
          | Thrown e => Thrown e
          | Returned colors =>
              if truthy colors then
                match nonempty_array colors with
                | Some cs => Returned cs
                | None => Thrown "Invalid JSON structure in response."
                end
              else Thrown "Invalid JSON structure in response."
          end
      end
  end.

Definition lift {A} (r : Outcome A) : M A := fun m => (r, m).

Definition getHarmonicColors (garmentImage : File) : M (list string) :=
  emit (EvGetHarmonicColors garmentImage) ;;
  garmentImagePart <- fileToPart garmentImage ;;
  response <- generateContent
                (mkRequest textModel [garmentImagePart] harmonicPrompt true) ;;
  try_catch
    (lift (parse_colors response))
    (fun e =>
       console_error ("Failed to parse harmonic colors JSON: " +:+ e) ;;
       ret FALLBACK_COLORS).

Definition recolorGarment (garmentImage : File) (colorHex : string) : M string :=
  emit (EvRecolorGarment garmentImage colorHex) ;;
  garmentImagePart <- fileToPart garmentImage ;;
  response <- generateContent
                (mkRequest imageModel [garmentImagePart] (recolorPrompt colorHex) false) ;;
  lift (handleApiResponse response).

(** [urlToFile] of the component: the browser fetches or draws the image. *)
Definition urlToFile (location filename : string) : M File :=
  emit (EvUrlToFile location filename) ;;
  await (fun t => w_urlToFile W t location filename) "Could not load image.".

End Service.

(** ** The variation controller ([GarmentDetailModal.tsx]) *)

Section Component.
Context (W : World).

Definition original_variation (item : WardrobeItem) (originalFile : File) : Variation :=
  mkVariation "original" (Item.url item) (Some originalFile) S_original.

(** The [initialize] closure of the effect on [item]. *)
Definition initialize (item : WardrobeItem) : M unit :=
  try_catch
    (originalFile <- urlToFile W (Item.url item) (Item.name item) ;;
     setVariations (fun _ => [original_variation item originalFile]) ;;
     setSelectedVariationIndex 0 ;;
     setError None)
    (fun err =>
       setError (Some "Could not load original garment image.") ;;
       console_error err).

(** [useEffect(() => { if (item) { ... initialize(); } }, [item])] *)
Definition item_effect (item : option WardrobeItem) : M unit :=
  match item with
  | Some it => initialize it
  | None => ret tt
  end.

(** [hex => ({ hex, url: '', status: 'generating' })] *)
Definition generating_variation (colour : string) : Variation :=
  mkVariation colour EmptyString None S_generating.

(** The updater of the success path:
    [v.hex === hex && v.status === 'generating' ? { ...v, url, file, status: 'done' } : v] *)
Definition mark_done (colour newGarmentUrl : string) (newGarmentFile : File)
           (v : Variation) : Variation :=
  if String.eqb (hex v) colour && Status_eqb (status v) S_generating
  then mkVariation (hex v) newGarmentUrl (Some newGarmentFile) S_done
  else v.

(** The updater of the [catch]:
    [v.hex === hex ? { ...v, status: 'error' } : v] *)
Definition mark_error (colour : string) (v : Variation) : Variation :=
  if String.eqb (hex v) colour
  then mkVariation (hex v) (url v) (file v) S_error
  else v.

(** The two awaits of the inner [try]: the recolour request and the
    materialization of its result. *)
Definition recolour (item : WardrobeItem) (originalFile : File) (colour : string)
  : M (string * File) :=
  newGarmentUrl <- recolorGarment W originalFile colour ;;
  newGarmentFile <- urlToFile W newGarmentUrl
                      (Item.name item +:+ "-" +:+ colour +:+ ".png") ;;
  ret (newGarmentUrl, newGarmentFile).

(** The body of [for (const hex of colors)]. *)
Definition generate_one (item : WardrobeItem) (originalFile : File) (colour : string)
  : M unit :=
  try_catch
    (made <- recolour item originalFile colour ;;
     setVariations (fmap (mark_done colour (fst made) (snd made))))
    (fun e =>
       console_error ("Failed to generate variation for color " +:+ colour +:+ " " +:+ e) ;;
       setVariations (fmap (mark_error colour))).

(** What follows the guard of [handleGenerateVariations]. *)
Definition generate_batch (item : WardrobeItem) (originalFile : File) : M unit :=
  setIsGenerating true ;;
  setError None ;;
  try_finally
    (try_catch
       (colors <- getHarmonicColors W originalFile ;;
        setVariations (fun prev => prev ++ (generating_variation <$> colors)) ;;
        for_of colors (generate_one item originalFile))
       (fun err => setError (Some "Failed to get color suggestions.")))
    (setIsGenerating false).

(** [if (!item || variations.length === 0 || !variations[0].file) return;]
    and then the batch.  Reading [.file] of a missing [variations[0]] would be
    a [TypeError]; the length test comes first. *)
Definition handleGenerateVariations (item : option WardrobeItem) : M unit :=
  vs <- read variations ;;
  match item with
  | None => ret tt
  | Some it =>
      if Nat.eqb (length vs) 0 then ret tt
      else
        match vs !! 0 with
        | None => throw "TypeError: Cannot read properties of undefined"
        | Some first =>
            match file first with
            | None => ret tt
            | Some originalFile => generate_batch it originalFile
            end
        end
  end.

(** [newInfo] of [handleApply]. *)
Definition derived_info (item : WardrobeItem) (selected : Variation) : WardrobeItem :=
  Item.mk
    (Item.id item +:+ "-" +:+ hex selected)
    (if Status_eqb (status selected) S_original
     then Item.name item
     else Item.name item +:+ " (" +:+ hex selected +:+ ")")
    (url selected)
    (Item.description item)
    (Item.brand item).

(** [handleApply]: [variations[selectedVariationIndex]] may be [undefined];
    [selectedVariation?.file] is then [undefined] and the status is not
    read. *)
Definition handleApply (item : option WardrobeItem) : M unit :=
  vs <- read variations ;;
  i <- read selectedVariationIndex ;;
  let selectedVariation := vs !! i in
  match item with
  | None => ret tt
  | Some it =>
      match selectedVariation ≫= file with
      | None => ret tt
      | Some garmentFile =>
          match selectedVariation with
          | None => throw "TypeError: Cannot read properties of undefined"
          | Some v =>
              if Status_eqb (status v) S_done || Status_eqb (status v) S_original
              then emit (EvOnApply garmentFile (derived_info it v))
              else ret tt
          end
      end
  end.

(** The swatch buttons call [setSelectedVariationIndex(index)]. *)
Definition selectVariation (index : nat) : M unit :=
  setSelectedVariationIndex index.

(** The Generate button: [onClick={handleGenerateVariations}] with
    [disabled={isLoading || isGenerating}]; a disabled button does not call
    its handler. *)
Definition click_generate (isLoading : bool) (item : option WardrobeItem) : M unit :=
  generating <- read isGenerating ;;
  if isLoading || generating then ret tt
  else handleGenerateVariations item.

End Component.

(** ** Machines and relations used to state the results *)

(** The colours for which a recolour request was made, oldest first. *)
Definition recolor_request (ev : Event) : option string :=
  match ev with
  | EvRecolorGarment _ colorHex => Some colorHex
  | _ => None
  end.

Definition recolor_requests (tr : list Event) : list string :=
  omap recolor_request tr.

(** The machine right after [setIsGenerating(true); setError(null)]. *)
Definition batch_started (m : Machine) : Machine :=
  mkMachine
    (mkModal (variations (modal m)) (selectedVariationIndex (modal m)) true None)
    (clock m) (trace m).

(** The machine with its variant list replaced. *)
Definition with_variations (vs : list Variation) (m : Machine) : Machine :=
  mkMachine
    (mkModal vs (selectedVariationIndex (modal m)) (isGenerating (modal m))
             (error (modal m)))
    (clock m) (trace m).

Ltac unfold_js :=
  unfold initialize, generate_batch, generate_one, recolour, recolorGarment,
    getHarmonicColors, urlToFile, fileToPart, generateContent, console_error,
    setVariations, setSelectedVariationIndex, setIsGenerating, setError,
    try_finally, try_catch, bind, ret, throw, lift, emit, await, update, read in *.

(** [evolves cs v v']: what relates a variant [v] before the colours [cs] are
    processed to the variant [v'] at the same position after. *)
Record evolves (cs : list string) (v v' : Variation) : Prop := mkEvolves {
  ev_hex : hex v' = hex v;
  ev_generating : status v' = S_generating → status v = S_generating ∧ hex v ∉ cs;
  ev_original : status v' = S_original → status v = S_original;
  ev_error : status v = S_error → status v' = S_error;
  ev_other : hex v ∉ cs → v' = v;
}.

(** What one run shares with the machine it started from, apart from the
    variant list: selection, flag and message are untouched. *)
Definition same_cells (m m' : Machine) : Prop :=
  selectedVariationIndex (modal m') = selectedVariationIndex (modal m) ∧
  isGenerating (modal m') = isGenerating (modal m) ∧
  error (modal m') = error (modal m).

(** The machine after the [finally] of the batch. *)
Definition batch_finished (m : Machine) : Machine :=
  mkMachine
    (mkModal (variations (modal m)) (selectedVariationIndex (modal m)) false
             (error (modal m)))
    (clock m) (trace m).

(** The machine after the outer [catch] of the batch. *)
Definition suggestion_failed (m : Machine) : Machine :=
  mkMachine
    (mkModal (variations (modal m)) (selectedVariationIndex (modal m))
             (isGenerating (modal m)) (Some "Failed to get color suggestions."))
    (clock m) (trace m).

(** The machine after the new variants of a batch have been appended. *)
Definition batch_appended (colors : list string) (m : Machine) : Machine :=
  with_variations (variations (modal m) ++ (generating_variation <$> colors)) m.


(** ** A concrete world, garment and machines for the examples *)

Module Demo.

Definition png : InlineData := mkInlineData "image/png" "AAAA".

(** A response that carries an image in its second part. *)
Definition image_response : GenerateContentResponse :=
  mkResponse None
    (Some [mkCandidate (Some [mkContentPart None; mkContentPart (Some png)])
                       (Some "STOP")])
    None.

(** A response that carries only text. *)
Definition text_response (t : string) : GenerateContentResponse :=
  mkResponse None (Some [mkCandidate (Some [mkContentPart None]) (Some "STOP")])
             (Some t).

Definition parse (s : string) : option JsonValue :=
  if String.eqb s "{colors}"
  then Some (JObject [("colors", JArray ["#111111"; "#222222"; "#111111"])])
  else if String.eqb s "{}" then Some (JObject [])
  else if String.eqb s "null" then Some JNull
  else if String.eqb s "[]" then Some (JObject [("colors", JArray [])])
  else None.

(** Every file can be read and every location materialized; the model answers
    the suggestion request with the text [suggestion] and recolours every
    colour but [#222222] and [#A0D2DB].  The parser knows a few texts; the
    first one has three colours, the first and third equal. *)
Definition world (suggestion : string) : World :=
  mkWorld
    (fun _ _ => Some png)
    (fun _ req =>
       if wantsJson req then Some (text_response suggestion)
       else if String.eqb (prompt req) (recolorPrompt "#222222")
               || String.eqb (prompt req) (recolorPrompt "#A0D2DB")
            then Some (text_response " no ")
            else Some image_response)
    (fun _ location filename => Some (mkFile filename "image/png" location))
    parse.

(** A world in which the remote model cannot be reached. *)
Definition offline : World :=
  mkWorld (fun _ _ => Some png) (fun _ _ => None)
          (fun _ location filename => Some (mkFile filename "image/png" location))
          parse.

(** A world in which no location can be materialized. *)
Definition unreachable : World :=
  mkWorld (fun _ _ => Some png) (fun _ _ => None) (fun _ _ _ => None) parse.

Definition shirt : WardrobeItem :=
  Item.mk "g1" "Shirt" "blob:shirt" "A shirt" "Acme".

Definition shirt_file : File := mkFile "Shirt" "image/png" "blob:shirt".

Definition fresh : Machine := mkMachine (mkModal [] 0 false None) 0 [].

(** The modal with the shirt loaded. *)
Definition loaded : Machine :=
  mkMachine (mkModal [original_variation shirt shirt_file] 0 false None) 1
            [EvUrlToFile "blob:shirt" "Shirt"].

(** The shirt loaded, with one finished variant of an earlier batch. *)
Definition with_done : Machine :=
  mkMachine
    (mkModal [original_variation shirt shirt_file;
              mkVariation "#A0D2DB" "data:old"
                          (Some (mkFile "Shirt-#A0D2DB.png" "image/png" "data:old"))
                          S_done]
             1 false None)
    9 [].

(** The shirt loaded while a batch is running. *)
Definition busy : Machine :=
  mkMachine (mkModal [original_variation shirt shirt_file] 0 true None) 1 [].

End Demo.

(** ** The two stages of the suggestion call *)

(** The response of the remote model to the suggestion request made at clock
    [t], when both the reading of the file and the request succeed. *)
Definition response_received (W : World) (f : File) (t : nat)
  : option GenerateContentResponse :=
  match w_fileToPart W t f with
  | Some part =>
      w_generateContent W (S t) (mkRequest textModel [part] harmonicPrompt true)
  | None => None
  end.

(** ** The guard of the generation handler *)

(** What the first line of [handleGenerateVariations] tests: no item, no
    variant, or a first variant without a file. *)
Definition not_ready (item : option WardrobeItem) (m : Machine) : Prop :=
  item = None ∨
  variations (modal m) = [] ∨
  ∃ first, variations (modal m) !! 0 = Some first ∧ file first = None.

(** ** The states the modal can be in *)

(** Every variant in status original carries the key [original]. *)
Definition originals_keyed (vs : list Variation) : Prop :=
  Forall (λ v, status v = S_original → hex v = "original") vs.

(** The machines reached from the freshly mounted modal by the effect on
    [item] and the three handlers, each run to its end. *)
Inductive reachable (W : World) : Machine → Prop :=
| reach_mounted :
    reachable W (mkMachine (mkModal [] 0 false None) 0 [])
| reach_item item m :
    reachable W m → reachable W (snd (item_effect W item m))
| reach_generate item m :
    reachable W m → reachable W (snd (handleGenerateVariations W item m))
| reach_select index m :
    reachable W m → reachable W (snd (selectVariation index m))
| reach_apply item m :
    reachable W m → reachable W (snd (handleApply item m)).


(** ** Data URLs ([dataUrlToParts], [dataUrlToPart]) *)

(** [s.split(sep)] for a one-character separator: the pieces between the
    separators, at least one. *)
Fixpoint split_on (sep : ascii) (s : string) : list string :=
  match s with
  | EmptyString => [EmptyString]
  | String c rest =>
      if Ascii.eqb c sep then EmptyString :: split_on sep rest
      else
        match split_on sep rest with
        | piece :: pieces => String c piece :: pieces
        | [] => [String c EmptyString]
        end
  end.

Definition comma : ascii := ascii_of_nat 44.
Definition colon : ascii := ascii_of_nat 58.
Definition semicolon : ascii := ascii_of_nat 59.

(** Whether the string starts with a character that the dot of a regular
    expression does not match: line feed, carriage return, U+2028 or
    U+2029. *)
Definition is_line_terminator (s : string) : bool :=
  match s with
  | String c1 rest =>
      Nat.eqb (code c1) 10 || Nat.eqb (code c1) 13
      || match rest with
         | String c2 (String c3 _) =>
             Nat.eqb (code c1) 226 && Nat.eqb (code c2) 128
             && (Nat.eqb (code c3) 168 || Nat.eqb (code c3) 169)
         | _ => false
         end
  | EmptyString => false
  end.

(** The group of the pattern [(.*?);] read from the start of [s]: the
    shortest run of characters of one line that a semicolon follows. *)
Fixpoint lazy_capture (s : string) : option string :=
  match s with
  | EmptyString => None
  | String c rest =>
      if Ascii.eqb c semicolon then Some EmptyString
      else if is_line_terminator s then None
      else String c <$> lazy_capture rest
  end.

(** The group of the leftmost match of the pattern [:(.*?);] in [s], [None]
    when the pattern does not match. *)
Fixpoint match_mime (s : string) : option string :=
  match s with
  | EmptyString => None
  | String c rest =>
      if Ascii.eqb c colon then
        match lazy_capture rest with
        | Some group => Some group
        | None => match_mime rest
        end
      else match_mime rest
  end.

Definition dataUrlToParts (dataUrl : string) : Outcome InlineData :=
  let arr := split_on comma dataUrl in
  if Nat.ltb (length arr) 2 then Thrown "Invalid data URL"
  else
    match match_mime (nth 0 arr EmptyString) with
    | None | Some EmptyString => Thrown "Could not parse MIME type from data URL"
    | Some mime => Returned (mkInlineData mime (nth 1 arr EmptyString))
    end.

Definition dataUrlToPart (dataUrl : string) : Outcome InlineData :=
  match dataUrlToParts dataUrl with
  | Returned p => Returned (mkInlineData (mimeType p) (data p))
  | Thrown e => Thrown e
  end.

(** The URL [handleApiResponse] builds from an image part. *)
Definition data_url (d : InlineData) : string :=
  "data:" +:+ mimeType d +:+ ";base64," +:+ data d.

(** A string without the character [c]. *)
Fixpoint lacks (c : ascii) (s : string) : bool :=
  match s with
  | EmptyString => true
  | String x rest => negb (Ascii.eqb x c) && lacks c rest
  end.

(** A string of one line: no line terminator starts anywhere in it. *)
Fixpoint one_line (s : string) : bool :=
  match s with
  | EmptyString => true
  | String x rest => negb (is_line_terminator s) && one_line rest
  end.

(** The image parts [dataUrlToParts] gives back from their data URL: a MIME
    type that is not empty, of one line, without comma or semicolon, and data
    without comma. *)
Definition plain_part (d : InlineData) : bool :=
  negb (String.eqb (mimeType d) EmptyString)
  && lacks comma (mimeType d) && lacks semicolon (mimeType d)
  && one_line (mimeType d) && lacks comma (data d).

(** Whether the response is blocked: [response.promptFeedback?.blockReason]
    is truthy. *)
Definition blocked (response : GenerateContentResponse) : bool :=
  match promptFeedback response with
  | Some fb => truthy_string (blockReason fb)
  | None => false
  end.

(** All the image parts of the candidates, in order. *)
Definition image_parts (response : GenerateContentResponse) : list InlineData :=
  c ← default [] (candidates response); omap inlineData (default [] (parts c)).

(** ** The other requests of the generation client *)

Definition modelPrompt : string :=
  "You are an expert fashion photographer AI. Transform the person in this image into a full-body fashion model photo suitable for an e-commerce website. The background must be a clean, neutral studio backdrop (light gray, #f0f0f0). The person should have a neutral, professional model expression. Preserve the person's identity, unique features, and body type, but place them in a standard, relaxed standing model pose. The final image must be photorealistic. Return ONLY the final image.".

Definition tryOnPrompt : string :=
  "You are an expert virtual try-on AI. You will be given a 'model image' and a 'garment image'. Your task is to create a new photorealistic image where the person from the 'model image' is wearing the clothing from the 'garment image'.

**Crucial Rules:**
1.  **Complete Garment Replacement:** You MUST completely REMOVE and REPLACE the clothing item worn by the person in the 'model image' with the new garment. No part of the original clothing (e.g., collars, sleeves, patterns) should be visible in the final image.
2.  **Preserve the Model:** The person's face, hair, body shape, and pose from the 'model image' MUST remain unchanged.
3.  **Preserve the Background:** The entire background from the 'model image' MUST be preserved perfectly.
4.  **Apply the Garment:** Realistically fit the new garment onto the person. It should adapt to their pose with natural folds, shadows, and lighting consistent with the original scene.
5.  **Output:** Return ONLY the final, edited image. Do not include any text.".

Definition posePrompt (poseInstruction : string) : string :=
  "You are an expert fashion photographer AI. Take this image and regenerate it from a different perspective. The person, clothing, and background style must remain identical. The new perspective should be: " +:+ dquote +:+ poseInstruction +:+ dquote
  +:+ ". Return ONLY the final image.".

Section OtherRequests.
Context (W : World).

Definition generateModelImage (userImage : File) : M string :=
  userImagePart <- fileToPart W userImage ;;
  response <- generateContent W
                (mkRequest imageModel [userImagePart] modelPrompt false) ;;
  lift (handleApiResponse response).

Definition generateVirtualTryOnImage (modelImageUrl : string) (garmentImage : File)
  : M string :=
  modelImagePart <- lift (dataUrlToPart modelImageUrl) ;;
  garmentImagePart <- fileToPart W garmentImage ;;
  response <- generateContent W
                (mkRequest imageModel [modelImagePart; garmentImagePart]
                           tryOnPrompt false) ;;
  lift (handleApiResponse response).

Definition generatePoseVariation (tryOnImageUrl poseInstruction : string)
  : M string :=
  tryOnImagePart <- lift (dataUrlToPart tryOnImageUrl) ;;
  response <- generateContent W
                (mkRequest imageModel [tryOnImagePart]
                           (posePrompt poseInstruction) false) ;;
  lift (handleApiResponse response).

End OtherRequests.

(** ** The rest of the modal: what it shows and its buttons *)



(** A swatch: [onClick={() => setSelectedVariationIndex(index)}] with
    [disabled={v.status === 'generating' || v.status === 'error'}]; there is a
    swatch for each variant and no other. *)
Definition click_swatch (index : nat) : M unit :=
  vs <- read variations ;;
  match vs !! index with
  | None => ret tt
  | Some v =>
      if Status_eqb (status v) S_generating || Status_eqb (status v) S_error
      then ret tt
      else setSelectedVariationIndex index
  end.

(** The Apply button: [onClick={handleApply}] with
    [disabled={isLoading || isGenerating || !variations[selectedVariationIndex]?.file}]. *)
Definition click_apply (isLoading : bool) (item : option WardrobeItem) : M unit :=
  generating <- read isGenerating ;;
  vs <- read variations ;;
  i <- read selectedVariationIndex ;;
  if isLoading || generating || negb (bool_decide (is_Some (vs !! i ≫= file)))
  then ret tt
  else handleApply item.

(** The machines reached from the freshly mounted modal through the effect on
    [item] and the buttons, which are rendered only for an item. *)
Inductive ui_reachable (W : World) : Machine → Prop :=
| ui_mounted :
    ui_reachable W (mkMachine (mkModal [] 0 false None) 0 [])
| ui_item item m :
    ui_reachable W m → ui_reachable W (snd (item_effect W item m))
| ui_generate isLoading it m :
    ui_reachable W m → ui_reachable W (snd (click_generate W isLoading (Some it) m))
| ui_swatch index m :
    ui_reachable W m → ui_reachable W (snd (click_swatch index m))
| ui_apply isLoading it m :
    ui_reachable W m → ui_reachable W (snd (click_apply isLoading (Some it) m)).

(** ** The history of a variant *)

(** [settles v v']: the variant [v'] is [v] after some updates of the two
    kinds a batch makes, the success updates carrying a URL of the image
    model. *)
Inductive settles : Variation → Variation → Prop :=
| settles_refl v : settles v v
| settles_done c d fl v v' :
    settles v v' → settles v (mark_done c (data_url d) fl v')
| settles_error c v v' :
    settles v v' → settles v (mark_error c v').

(** What holds of each variant between two runs of handlers. *)
Definition variant_at_rest (v : Variation) : Prop :=
  status v ≠ S_generating ∧
  (status v = S_original ∨ status v = S_done → is_Some (file v)) ∧
  (status v = S_done → ∃ d, url v = data_url d).

(** What holds of the modal between two runs of handlers. *)
Record at_rest (s : Modal) : Prop := mkAtRest {
  rest_flag : isGenerating s = false;
  rest_variants : Forall variant_at_rest (variations s);
  rest_head :
    ∀ v, variations s !! 0 = Some v →
         hex v = "original" ∧ is_Some (file v) ∧
         (status v = S_original ∨ status v = S_error);
  rest_original :
    ∀ i v, variations s !! i = Some v → status v = S_original → i = 0;
}.

(** ** The materialization of a URL in the browser ([urlToFile]) *)

Record Blob : Type := mkBlob {
  blobType : string;
  blobBytes : string;
}.

(** What the browser answers to [urlToFile]: the blob fetched from a URL
    ([None] when the fetch is rejected), whether the image of a URL loads (the
    error otherwise), whether the canvas gives a 2d context, and the blob of
    the canvas ([None] for [null]). *)
Record Browser : Type := mkBrowser {
  b_fetch : string → option Blob;
  b_image_load : string → option string;
  b_context : string → bool;
  b_toBlob : string → option Blob;
}.

Definition urlToFile_in (B : Browser) (location filename : string) : Outcome File :=
  if String.prefix "blob:" location then
    match b_fetch B location with
    | Some blob => Returned (mkFile filename (blobType blob) (blobBytes blob))
    | None => Thrown "fetch failed"
    end
  else
    match b_image_load B location with
    | Some error => Thrown ("Could not load image. Error: " +:+ error)
    | None =>
        if negb (b_context B location) then Thrown "Could not get canvas context."
        else
          match b_toBlob B location with
          | None => Thrown "Canvas toBlob failed."
          | Some blob =>
              Returned (mkFile filename
                          (if truthy_string (Some (blobType blob))
                           then blobType blob else "image/png")
                          (blobBytes blob))
          end
    end.

(** ** A session with the modal, for the examples *)

Module Tour.

Definition world : World := Demo.world " {colors} ".

(** The shirt is opened, a batch is generated, the first new variant is
    selected. *)
Definition opened : Machine := snd (item_effect world (Some Demo.shirt) Demo.fresh).

Definition generated : Machine :=
  snd (handleGenerateVariations world (Some Demo.shirt) opened).

Definition chosen : Machine := snd (selectVariation 1 generated).

(** The same session through the buttons. *)
Definition clicked : Machine :=
  snd (click_swatch 1
         (snd (click_generate world false (Some Demo.shirt) opened))).

(** A browser that cannot fetch, loads every image and draws it into a blob
    without a type. *)
Definition browser : Browser :=
  mkBrowser (fun _ => None) (fun _ => None) (fun _ => true)
            (fun location => Some (mkBlob EmptyString location)).

End Tour.

(** ** The answer behind a returned URL *)

(** [answered_with W t req u]: the model answered the request [req], made at
    clock [t], with a response that is not blocked, and [u] is the data URL of
    the first image part of this response. *)
Definition answered_with (W : World) (t : nat) (req : GenerateRequest)
           (u : string) : Prop :=
  ∃ answer d,
    w_generateContent W t req = Some answer ∧
    blocked answer = false ∧
    head (image_parts answer) = Some d ∧
    u = data_url d.
(** ** Facts about single steps *)

Section Steps.
Context (W : World).

Lemma recolour_frame it f c m r m1 :
  recolour W it f c m = (r, m1) →
  modal m1 = modal m ∧
  recolor_requests (trace m1) = recolor_requests (trace m) ++ [c].
Proof.
  unfold_js; cbn. intros H.
  destruct (w_fileToPart W (clock m) f); cbn in H.
  2: { inversion H; subst; cbn. split; [done|]. unfold recolor_requests.
       by rewrite omap_app. }
  destruct (w_generateContent W _ _); cbn in H.
  2: { inversion H; subst; cbn. split; [done|]. unfold recolor_requests.
       by rewrite omap_app. }
  destruct (handleApiResponse _); cbn in H.
  2: { inversion H; subst; cbn. split; [done|]. unfold recolor_requests.
       by rewrite omap_app. }
  destruct (w_urlToFile W _ _ _); cbn in H; inversion H; subst; cbn.
  all: split; [done|]; unfold recolor_requests; rewrite !omap_app; cbn;
    by rewrite app_nil_r.
Qed.

(** The success path of one colour. *)
Lemma generate_one_done it f c m u fl m1 :
  recolour W it f c m = (Returned (u, fl), m1) →
  generate_one W it f c m =
    (Returned tt, with_variations (mark_done c u fl <$> variations (modal m1)) m1).
Proof.
  intros H. unfold generate_one, try_catch, bind. rewrite H. reflexivity.
Qed.

(** The [catch] of one colour. *)
Lemma generate_one_failed it f c m e m1 :
  recolour W it f c m = (Thrown e, m1) →
  generate_one W it f c m =
    (Returned tt,
     with_variations (mark_error c <$> variations (modal m1))
       (mkMachine (modal m1) (clock m1)
          (trace m1 ++ [EvConsoleError
             ("Failed to generate variation for color " +:+ c +:+ " " +:+ e)]))).
Proof.
  intros H. unfold generate_one, try_catch, bind. rewrite H. reflexivity.
Qed.

End Steps.

(** ** How a variant changes over a run of the loop *)

Lemma String_eqb_false_ne (a b : string) : String.eqb a b = false → a ≠ b.
Proof. intros H ->. rewrite String.eqb_refl in H. discriminate. Qed.

Lemma evolves_nil v : evolves [] v v.
Proof. split; auto. intros Hs. split; [done|]. apply not_elem_of_nil. Qed.

Lemma evolves_mark_done c u fl v : evolves [c] v (mark_done c u fl v).
Proof.
  unfold mark_done.
  destruct (String.eqb (hex v) c) eqn:Hc; cbn.
  - apply String.eqb_eq in Hc. subst c.
    destruct (status v) eqn:Hs; cbn; split; cbn; try done; try congruence.
    all: try (intros Hn; exfalso; apply Hn; apply list_elem_of_singleton; done).
  - apply String_eqb_false_ne in Hc.
    split; try done. intros Hs. split; [done|].
    by intros ?%list_elem_of_singleton.
Qed.

Lemma evolves_mark_error c v : evolves [c] v (mark_error c v).
Proof.
  unfold mark_error.
  destruct (String.eqb (hex v) c) eqn:Hc; cbn.
  - apply String.eqb_eq in Hc. subst c.
    split; cbn; try done.
    intros Hn; exfalso; apply Hn; apply list_elem_of_singleton; done.
  - apply String_eqb_false_ne in Hc.
    split; try done. intros Hs. split; [done|].
    by intros ?%list_elem_of_singleton.
Qed.

Lemma evolves_chain cs1 cs2 v v1 v2 :
  evolves cs1 v v1 → evolves cs2 v1 v2 → evolves (cs1 ++ cs2) v v2.
Proof.
  intros [h1 g1 o1 e1 r1] [h2 g2 o2 e2 r2]. split.
  - congruence.
  - intros Hs. destruct (g2 Hs) as [Hs1 Hn2]. destruct (g1 Hs1) as [Hs0 Hn1].
    split; [done|]. rewrite h1 in Hn2. intros [?|?]%elem_of_app; tauto.
  - auto.
  - auto.
  - intros Hn. assert (hex v ∉ cs1) as H1 by (intros ?; apply Hn, elem_of_app; tauto).
    assert (hex v ∉ cs2) as H2 by (intros ?; apply Hn, elem_of_app; tauto).
    pose proof (r1 H1) as E. subst v1. auto.
Qed.

Lemma Forall2_updated {A} (R : A → A → Prop) (g : A → A) (l : list A) :
  (∀ x, R x (g x)) → Forall2 R l (g <$> l).
Proof. intros Hg. induction l; cbn; constructor; auto. Qed.

Lemma Forall2_evolves_chain cs1 cs2 l l1 l2 :
  Forall2 (evolves cs1) l l1 → Forall2 (evolves cs2) l1 l2 →
  Forall2 (evolves (cs1 ++ cs2)) l l2.
Proof.
  intros H. revert l2. induction H as [|v v1 l l1 Hv _ IH]; intros l2 H2.
  - inversion H2. constructor.
  - inversion H2 as [|? v2 ? l2' Hv2 Hl2]; subst. constructor.
    + by eapply evolves_chain.
    + by apply IH.
Qed.

Section Loop.
Context (W : World).

(** One colour: the body always returns, whatever the outside answers. *)
Lemma generate_one_run it f c m :
  ∃ m', generate_one W it f c m = (Returned tt, m') ∧
        Forall2 (evolves [c]) (variations (modal m)) (variations (modal m')) ∧
        same_cells m m' ∧
        recolor_requests (trace m') = recolor_requests (trace m) ++ [c].
Proof.
  destruct (recolour W it f c m) as [[[u fl]|e] m1] eqn:Hr;
    destruct (recolour_frame W _ _ _ _ _ _ Hr) as [Hm Ht].
  - eexists. split; [by apply generate_one_done|]. cbn. rewrite Hm.
    split; [apply Forall2_updated, evolves_mark_done|].
    split; [unfold same_cells; cbn; by rewrite Hm | exact Ht].
  - eexists. split; [by eapply generate_one_failed|]. cbn. rewrite Hm.
    split; [apply Forall2_updated, evolves_mark_error|].
    split; [by unfold same_cells |].
    unfold recolor_requests in *. rewrite omap_app, Ht. cbn. by rewrite app_nil_r.
Qed.

(** The whole loop. *)
Lemma for_of_generate it f cs m :
  ∃ m', for_of cs (generate_one W it f) m = (Returned tt, m') ∧
        Forall2 (evolves cs) (variations (modal m)) (variations (modal m')) ∧
        same_cells m m' ∧
        recolor_requests (trace m') = recolor_requests (trace m) ++ cs.
Proof.
  revert m. induction cs as [|c cs IH]; intros m.
  - exists m. cbn. split; [done|]. split.
    + apply Forall_Forall2_diag, Forall_forall. intros. apply evolves_nil.
    + split; [done|]. by rewrite app_nil_r.
  - destruct (generate_one_run it f c m) as (m1 & H1 & Hv1 & Hc1 & Ht1).
    destruct (IH m1) as (m2 & H2 & Hv2 & Hc2 & Ht2).
    exists m2. cbn [for_of]. unfold bind at 1. rewrite H1. split; [done|].
    split; [apply (Forall2_evolves_chain [c] cs _ _ _ Hv1 Hv2)|].
    split.
    + destruct Hc1 as (?&?&?), Hc2 as (?&?&?). repeat split; congruence.
    + rewrite Ht2, Ht1, <- app_assoc. done.
Qed.

(** The loop over a colour list cut in two. *)
Lemma for_of_app {A} (xs ys : list A) (body : A → M unit) m m1 :
  for_of xs body m = (Returned tt, m1) →
  for_of (xs ++ ys) body m = for_of ys body m1.
Proof.
  revert m. induction xs as [|x xs IH]; intros m; cbn.
  - unfold ret. by intros [= ->].
  - unfold bind. destruct (body x m) as [[[]|e] m']; [apply IH|done].
Qed.

End Loop.

(** ** The batch as a whole *)

Section Batch.
Context (W : World).

(** The suggestion call touches no state cell and asks for no recolouring. *)
Lemma getHarmonicColors_frame f m r m1 :
  getHarmonicColors W f m = (r, m1) →
  modal m1 = modal m ∧
  recolor_requests (trace m1) = recolor_requests (trace m).
Proof.
  unfold_js; cbn. intros H. unfold recolor_requests.
  destruct (w_fileToPart W (clock m) f); cbn in H.
  2: { inversion H; subst; cbn. rewrite omap_app; cbn. by rewrite app_nil_r. }
  destruct (w_generateContent W _ _); cbn in H.
  2: { inversion H; subst; cbn. rewrite omap_app; cbn. by rewrite app_nil_r. }
  destruct (parse_colors W _); cbn in H; inversion H; subst; cbn.
  all: rewrite !omap_app; cbn; by rewrite !app_nil_r.
Qed.

(** When the guard lets the call through, the handler is the batch. *)
Lemma handleGenerateVariations_ready it first f m :
  variations (modal m) !! 0 = Some first →
  file first = Some f →
  handleGenerateVariations W (Some it) m = generate_batch W it f m.
Proof.
  intros H0 Hf. unfold handleGenerateVariations, bind, read.
  destruct (Nat.eqb (length (variations (modal m))) 0) eqn:Hlen.
  - apply Nat.eqb_eq, nil_length_inv in Hlen. by rewrite Hlen in H0.
  - by rewrite H0, Hf.
Qed.

(** The batch when the suggestion call returns colours. *)
Lemma generate_batch_colors it f m colors m1 :
  getHarmonicColors W f (batch_started m) = (Returned colors, m1) →
  ∃ m2,
    for_of colors (generate_one W it f) (batch_appended colors m1)
      = (Returned tt, m2) ∧
    generate_batch W it f m = (Returned tt, batch_finished m2).
Proof.
  intros Hc.
  destruct (for_of_generate W it f colors (batch_appended colors m1))
    as (m2 & Hloop & _).
  exists m2. split; [done|].
  unfold generate_batch, try_finally, try_catch.
  unfold bind at 1 2. cbn.
  fold (batch_started m). unfold bind at 1. rewrite Hc.
  unfold bind at 1.
  change (setVariations _ m1) with (Returned tt, batch_appended colors m1).
  cbv iota beta. by rewrite Hloop.
Qed.

(** The batch when the suggestion call throws. *)
Lemma generate_batch_no_colors it f m e m1 :
  getHarmonicColors W f (batch_started m) = (Thrown e, m1) →
  generate_batch W it f m = (Returned tt, batch_finished (suggestion_failed m1)).
Proof.
  intros Hc.
  unfold generate_batch, try_finally, try_catch.
  unfold bind at 1 2. cbn.
  fold (batch_started m). unfold bind at 1. by rewrite Hc.
Qed.

End Batch.

(** ** Results about the generation batch *)

Lemma Forall2_evolves_hex cs l k :
  Forall2 (evolves cs) l k → hex <$> k = hex <$> l.
Proof.
  induction 1 as [|v v' l k Hv _ IH]; [done|]. cbn. f_equal; [apply Hv | exact IH].
Qed.

(** A variant appended for one of the colours of the batch is settled when
    the loop over these colours is over. *)
Lemma appended_settled cs cs' k :
  Forall2 (evolves cs) (generating_variation <$> cs') k →
  cs' ⊆ cs →
  Forall (λ v, status v = S_done ∨ status v = S_error) k.
Proof.
  revert k. induction cs' as [|c cs' IH]; intros k H Hsub; cbn in H.
  - inversion H. constructor.
  - inversion H as [|? v' ? k' Hv Hk]; subst. constructor.
    + destruct Hv as [_ Hg Ho _ _]. cbn in *.
      destruct (status v') eqn:Hs; auto.
      * specialize (Ho eq_refl). discriminate.
      * destruct (Hg eq_refl) as [_ Hn]. exfalso. apply Hn, Hsub. by left.
    + apply IH; [done|]. intros x Hx. apply Hsub. by right.
Qed.

(** The run of the handler when the guard passes and the suggestion call
    returns [colors]: it returns, and the final machine is described
    position by position. *)
Lemma batch_run (W : World) (it : WardrobeItem)
    (first : Variation) (f : File) (m m1 : Machine) (colors : list string) :
  variations (modal m) !! 0 = Some first →
  file first = Some f →
  getHarmonicColors W f (batch_started m) = (Returned colors, m1) →
  ∃ m', handleGenerateVariations W (Some it) m = (Returned tt, m') ∧
    Forall2 (evolves colors)
      (variations (modal m) ++ (generating_variation <$> colors))
      (variations (modal m')) ∧
    selectedVariationIndex (modal m') = selectedVariationIndex (modal m) ∧
    isGenerating (modal m') = false ∧
    error (modal m') = None ∧
    recolor_requests (trace m') = recolor_requests (trace m) ++ colors.
Proof.
  intros H0 Hf Hc.
  destruct (getHarmonicColors_frame W _ _ _ _ Hc) as [Hm1 Ht1].
  destruct (generate_batch_colors W it f m colors m1 Hc) as (m2 & Hloop & Hb).
  destruct (for_of_generate W it f colors (batch_appended colors m1))
    as (m2' & Hloop' & Hev & (Hsel & _ & Herr) & Htr).
  rewrite Hloop in Hloop'. injection Hloop' as <-.
  exists (batch_finished m2).
  split; [by rewrite (handleGenerateVariations_ready W it first f m H0 Hf)|].
  cbn in *. rewrite Hm1 in Hev, Hsel, Herr. cbn in *.
  repeat split; try done. unfold recolor_requests in *. by rewrite Htr, Ht1.
Qed.

(** The same run, read off the final variant list. *)
Lemma batch_run_list (old new : list Variation) (colors : list string) :
  Forall2 (evolves colors) (old ++ (generating_variation <$> colors)) new →
  length new = length old + length colors ∧
  hex <$> take (length old) new = hex <$> old ∧
  hex <$> drop (length old) new = colors ∧
  Forall (λ v, status v = S_done ∨ status v = S_error) (drop (length old) new).
Proof.
  intros Hev.
  apply Forall2_app_inv_l in Hev as (k1 & k2 & Hk1 & Hk2 & ->).
  pose proof (Forall2_length _ _ _ Hk1) as Hl1.
  pose proof (Forall2_length _ _ _ Hk2) as Hl2.
  rewrite length_fmap in Hl2.
  rewrite Hl1, take_app_length, drop_app_length, length_app.
  split; [lia|]. split; [by apply Forall2_evolves_hex with colors|].
  split.
  - rewrite (Forall2_evolves_hex _ _ _ Hk2), <- list_fmap_compose.
    cbn. apply list_fmap_id.
  - by eapply appended_settled.
Qed.

(** C1: when the suggestion call returns N colours, the handler returns with
    exactly N variants appended after the pre-existing ones, carrying the
    colours in the order returned, each in status done or error. *)
Theorem batch_appends_and_settles (W : World) (it : WardrobeItem)
    (first : Variation) (f : File) (m m1 : Machine) (colors : list string) :
  variations (modal m) !! 0 = Some first →
  file first = Some f →
  getHarmonicColors W f (batch_started m) = (Returned colors, m1) →
  ∃ m', handleGenerateVariations W (Some it) m = (Returned tt, m') ∧
    let old := variations (modal m) in
    let new := variations (modal m') in
    length new = length old + length colors ∧
    hex <$> take (length old) new = hex <$> old ∧
    hex <$> drop (length old) new = colors ∧
    Forall (λ v, status v = S_done ∨ status v = S_error) (drop (length old) new).
Proof.
  intros H0 Hf Hc.
  destruct (batch_run W it first f m m1 colors H0 Hf Hc) as (m' & Hrun & Hev & _).
  exists m'. split; [done|]. cbn. by apply batch_run_list.
Qed.

Lemma batch_appends_and_settles_witness :
  ∃ m', handleGenerateVariations (Demo.world " {colors} ") (Some Demo.shirt)
          Demo.loaded = (Returned tt, m') ∧
    let old := variations (modal Demo.loaded) in
    let new := variations (modal m') in
    length new = length old + 3 ∧
    hex <$> take (length old) new = hex <$> old ∧
    hex <$> drop (length old) new = ["#111111"; "#222222"; "#111111"] ∧
    Forall (λ v, status v = S_done ∨ status v = S_error) (drop (length old) new).
Proof.
  eapply (batch_appends_and_settles (Demo.world " {colors} ") Demo.shirt
            (original_variation Demo.shirt Demo.shirt_file) Demo.shirt_file
            Demo.loaded _ ["#111111"; "#222222"; "#111111"]).
  - reflexivity.
  - reflexivity.
  - vm_compute. reflexivity.
Defined.

(** ** Results about the suggestion call *)

Section Suggestions.
Context (W : World).

(** No response: the call throws. *)
Lemma getHarmonicColors_no_response f m :
  response_received W f (clock m) = None →
  ∃ e m1, getHarmonicColors W f m = (Thrown e, m1).
Proof.
  unfold response_received. unfold_js; cbn.
  destruct (w_fileToPart W (clock m) f); cbn; [|by eauto].
  intros ->. eauto.
Qed.

(** A response: the call returns, with the parsed colours or the fallback. *)
Lemma getHarmonicColors_response f m response :
  response_received W f (clock m) = Some response →
  ∃ m1, getHarmonicColors W f m =
          (Returned (match parse_colors W response with
                     | Returned cs => cs
                     | Thrown _ => FALLBACK_COLORS
                     end), m1).
Proof.
  unfold response_received. unfold_js; cbn.
  destruct (w_fileToPart W (clock m) f); cbn; [|done].
  intros ->. destruct (parse_colors W response); eauto.
Qed.

(** What [parse_colors] returns is a non-empty array. *)
Lemma parse_colors_nonempty response cs :
  parse_colors W response = Returned cs → cs ≠ [].
Proof.
  unfold parse_colors.
  destruct (text response); [|done].
  destruct (w_JSON_parse W _); [|done].
  destruct (get_colors _) as [colors|]; [|done].
  destruct (truthy colors); [|done].
  destruct colors as [[| | | |[|c items]|]|]; cbn; try done.
  by intros [= <-].
Qed.

End Suggestions.

(** C9: whenever [getHarmonicColors] returns, the list it returns is not
    empty: it is either the fallback palette or the array found under
    [colors] in the parsed response, returned only when it has an item. *)
Theorem harmonic_colors_nonempty (W : World) (f : File) (m m1 : Machine)
    (cs : list string) :
  getHarmonicColors W f m = (Returned cs, m1) →
  cs ≠ [] ∧
  (cs = FALLBACK_COLORS ∨
   ∃ response, response_received W f (clock m) = Some response ∧
               parse_colors W response = Returned cs).
Proof.
  intros H.
  destruct (response_received W f (clock m)) as [response|] eqn:Hr.
  - destruct (getHarmonicColors_response W f m response Hr) as (m1' & H').
    rewrite H in H'. injection H' as -> _.
    destruct (parse_colors W response) as [cs|e] eqn:Hp.
    + split; [by eapply parse_colors_nonempty|]. right. by exists response.
    + split; [done|by left].
  - destruct (getHarmonicColors_no_response W f m Hr) as (e & m1' & H').
    rewrite H in H'. discriminate.
Qed.

Lemma harmonic_colors_nonempty_witness :
  ["#111111"; "#222222"; "#111111"] ≠ [] ∧
  (["#111111"; "#222222"; "#111111"] = FALLBACK_COLORS ∨
   ∃ response,
     response_received (Demo.world " {colors} ") Demo.shirt_file
       (clock Demo.loaded) = Some response ∧
     parse_colors (Demo.world " {colors} ") response
       = Returned ["#111111"; "#222222"; "#111111"]).
Proof.
  eapply (harmonic_colors_nonempty (Demo.world " {colors} ") Demo.shirt_file
            Demo.loaded).
  vm_compute. reflexivity.
Defined.

(** C2, as the code has it: once the remote model has answered, the
    suggestion call returns, with the fallback palette whenever the answer
    cannot be parsed into a non-empty [colors] array, and the batch goes on
    with these colours and reports no error.  When the file cannot be read or
    the request itself fails, the call throws, and the handler reports
    "Failed to get color suggestions." and appends nothing. *)
Theorem suggestions_fall_back_once_answered (W : World) (it : WardrobeItem)
    (first : Variation) (f : File) (m : Machine) :
  variations (modal m) !! 0 = Some first →
  file first = Some f →
  match response_received W f (clock m) with
  | Some response =>
      ∃ colors m1 m',
        getHarmonicColors W f (batch_started m) = (Returned colors, m1) ∧
        (∀ e, parse_colors W response = Thrown e → colors = FALLBACK_COLORS) ∧
        handleGenerateVariations W (Some it) m = (Returned tt, m') ∧
        error (modal m') = None ∧
        hex <$> drop (length (variations (modal m))) (variations (modal m')) = colors
  | None =>
      ∃ e m1 m',
        getHarmonicColors W f (batch_started m) = (Thrown e, m1) ∧
        handleGenerateVariations W (Some it) m = (Returned tt, m') ∧
        error (modal m') = Some "Failed to get color suggestions." ∧
        variations (modal m') = variations (modal m) ∧
        isGenerating (modal m') = false
  end.
Proof.
  intros H0 Hf.
  destruct (response_received W f (clock m)) as [response|] eqn:Hr.
  - destruct (getHarmonicColors_response W f (batch_started m) response Hr)
      as (m1 & Hc).
    destruct (batch_run W it first f m m1 _ H0 Hf Hc)
      as (m' & Hrun & Hev & _ & _ & Herr & _).
    eexists _, m1, m'. split; [exact Hc|].
    split; [by intros e ->|]. split; [done|]. split; [done|].
    by apply batch_run_list in Hev as (_ & _ & ? & _).
  - destruct (getHarmonicColors_no_response W f (batch_started m) Hr)
      as (e & m1 & Hc).
    destruct (getHarmonicColors_frame W _ _ _ _ Hc) as [Hm1 _].
    exists e, m1, (batch_finished (suggestion_failed m1)).
    split; [done|].
    rewrite (handleGenerateVariations_ready W it first f m H0 Hf).
    split; [by apply generate_batch_no_colors with e|].
    cbn. by rewrite Hm1.
Qed.

Lemma suggestions_fall_back_once_answered_witness :
  ∃ colors m1 m',
    getHarmonicColors (Demo.world "{}") Demo.shirt_file (batch_started Demo.loaded)
      = (Returned colors, m1) ∧
    (∀ e, parse_colors (Demo.world "{}") (Demo.text_response "{}") = Thrown e →
          colors = FALLBACK_COLORS) ∧
    handleGenerateVariations (Demo.world "{}") (Some Demo.shirt) Demo.loaded
      = (Returned tt, m') ∧
    error (modal m') = None ∧
    hex <$> drop (length (variations (modal Demo.loaded))) (variations (modal m'))
      = colors.
Proof.
  exact (suggestions_fall_back_once_answered (Demo.world "{}") Demo.shirt
           (original_variation Demo.shirt Demo.shirt_file) Demo.shirt_file
           Demo.loaded eq_refl eq_refl).
Defined.

(** C2 as stated fails: with the remote model out of reach the suggestion
    call throws instead of returning the fallback, and the handler sets the
    whole-batch error. *)
Lemma suggestion_call_can_throw :
  ¬ (∃ colors m1,
       getHarmonicColors Demo.offline Demo.shirt_file (batch_started Demo.loaded)
         = (Returned colors, m1)) ∧
  error (modal (snd (handleGenerateVariations Demo.offline (Some Demo.shirt)
                       Demo.loaded)))
    = Some "Failed to get color suggestions.".
Proof.
  split; [|reflexivity].
  intros (colors & m1 & H). vm_compute in H. discriminate.
Qed.

(** ** Results about a failing colour *)

(** C3 at a failing input: the recolouring fails for the first colour of a
    batch.  The variant appended for it ends in error, the three other
    colours are processed and end done, and the flag is set back to false, as
    the claim says; but the variant of the same key that an earlier batch had
    finished, another variant of the list, is put in error as well, because
    the [catch] matches on the key alone. *)
Theorem failed_colour_overwrites_finished_sibling :
  let W := Demo.world "{}" in
  let m := Demo.with_done in
  let started :=
    batch_appended FALLBACK_COLORS
      (snd (getHarmonicColors W Demo.shirt_file (batch_started m))) in
  let m' := snd (handleGenerateVariations W (Some Demo.shirt) m) in
  (∃ e, fst (recolour W Demo.shirt Demo.shirt_file "#A0D2DB" started) = Thrown e) ∧
  hex <$> variations (modal started)
    = ["original"; "#A0D2DB"; "#A0D2DB"; "#7A6E9E"; "#E8A0BF"; "#B4E1D2"] ∧
  status <$> variations (modal started)
    = [S_original; S_done; S_generating; S_generating; S_generating; S_generating] ∧
  status <$> variations (modal m')
    = [S_original; S_error; S_error; S_done; S_done; S_done] ∧
  isGenerating (modal m') = false.
Proof.
  cbv zeta. split; [eexists; vm_compute; reflexivity|].
  repeat split; vm_compute; reflexivity.
Qed.

(** ** Results about the guards *)

Lemma handleGenerateVariations_not_ready (W : World) item m :
  not_ready item m → handleGenerateVariations W item m = (Returned tt, m).
Proof.
  unfold handleGenerateVariations, bind, read, ret.
  intros [Hitem|[Hnil|(first & H0 & Hf)]].
  - by rewrite Hitem.
  - destruct item; [|done]. by rewrite Hnil.
  - destruct item; [|done].
    destruct (Nat.eqb _ 0); [done|]. by rewrite H0, Hf.
Qed.

(** C4: GenerateVariations does nothing (same state, no call, no event) when
    its precondition fails.  The handler returns at once when there is no
    item, no variant, or no file in the first variant; its only caller, the
    Generate button, is disabled while a batch is in progress (or the host is
    loading), so that a click then does nothing either. *)
Theorem generate_does_nothing_when_not_ready (W : World) (isLoading : bool)
    (item : option WardrobeItem) (m : Machine) :
  (not_ready item m → handleGenerateVariations W item m = (Returned tt, m)) ∧
  (not_ready item m ∨ isLoading = true ∨ isGenerating (modal m) = true →
   click_generate W isLoading item m = (Returned tt, m)).
Proof.
  split; [apply handleGenerateVariations_not_ready|].
  unfold click_generate, bind, read.
  intros [H|[Hl|Hg]]; cbn.
  - destruct (isLoading || _); [done|]. by apply handleGenerateVariations_not_ready.
  - rewrite Hl. reflexivity.
  - rewrite Hg, orb_true_r. reflexivity.
Qed.

Lemma generate_does_nothing_when_not_ready_witness :
  handleGenerateVariations (Demo.world "{colors}") (Some Demo.shirt) Demo.fresh
    = (Returned tt, Demo.fresh) ∧
  click_generate (Demo.world "{colors}") false (Some Demo.shirt) Demo.busy
    = (Returned tt, Demo.busy).
Proof.
  split.
  - apply (proj1 (generate_does_nothing_when_not_ready (Demo.world "{colors}")
                    false (Some Demo.shirt) Demo.fresh)).
    right. left. reflexivity.
  - apply (proj2 (generate_does_nothing_when_not_ready (Demo.world "{colors}")
                    false (Some Demo.shirt) Demo.busy)).
    right. right. reflexivity.
Defined.

(** ** Results about the loading of the garment *)

(** C5, as the code has it: when the image is materialized, the variant list
    becomes the single original variant holding the payload, the selection
    becomes 0 and the message is cleared; when it is not, the message becomes
    "Could not load original garment image." and a list that was empty stays
    empty. *)
Theorem initialize_outcomes (W : World) (it : WardrobeItem) (m : Machine) :
  match w_urlToFile W (clock m) (Item.url it) (Item.name it) with
  | Some originalFile =>
      ∃ m', item_effect W (Some it) m = (Returned tt, m') ∧
            variations (modal m')
              = [mkVariation "original" (Item.url it) (Some originalFile) S_original] ∧
            selectedVariationIndex (modal m') = 0 ∧
            error (modal m') = None
  | None =>
      ∃ m', item_effect W (Some it) m = (Returned tt, m') ∧
            error (modal m') = Some "Could not load original garment image." ∧
            (variations (modal m) = [] → variations (modal m') = [])
  end.
Proof.
  unfold item_effect. unfold_js. cbn.
  destruct (w_urlToFile W (clock m) (Item.url it) (Item.name it)); cbn.
  - eexists. split; [reflexivity|]. done.
  - eexists. split; [reflexivity|]. done.
Qed.

(** C5 as stated fails on the failure path: the message is the one of the
    code, and the variants of the garment opened before are still there. *)
Lemma initialize_failure_keeps_variants :
  let m' := snd (item_effect Demo.unreachable (Some Demo.shirt) Demo.with_done) in
  fst (item_effect Demo.unreachable (Some Demo.shirt) Demo.with_done) = Returned tt ∧
  error (modal m') ≠ Some "could not load original image" ∧
  variations (modal m') ≠ [] ∧
  ¬ (error (modal m') = Some "could not load original image" ∧
     variations (modal m') = []).
Proof.
  cbv zeta. split; [reflexivity|].
  split; [vm_compute; discriminate|].
  split; [vm_compute; discriminate|].
  intros [_ H]. vm_compute in H. discriminate.
Qed.

(** ** Results about the selection of updates *)

(** The success path changes only variants that are being generated. *)
Lemma mark_done_spares_settled c u fl v :
  status v ≠ S_generating → mark_done c u fl v = v.
Proof.
  intros H. unfold mark_done.
  destruct (status v); try done; by rewrite andb_false_r.
Qed.

(** C6 at a failing input: a variant of key [#A0D2DB] finished by an earlier
    batch, never in status generating during the second batch, is put in
    status error by the [catch] of the second batch, which matches on the key
    alone. *)
Theorem catch_overwrites_finished_variant :
  let W := Demo.world "{}" in
  let m' := snd (handleGenerateVariations W (Some Demo.shirt) Demo.with_done) in
  status <$> variations (modal Demo.with_done) !! 1 = Some S_done ∧
  hex <$> variations (modal Demo.with_done) !! 1 = Some "#A0D2DB" ∧
  hex <$> variations (modal m') !! 1 = Some "#A0D2DB" ∧
  status <$> variations (modal m') !! 1 = Some S_error ∧
  mark_error "#A0D2DB" <$> variations (modal Demo.with_done) !! 1
    ≠ variations (modal Demo.with_done) !! 1.
Proof.
  cbv zeta. repeat split; try (vm_compute; reflexivity).
  vm_compute. discriminate.
Qed.

(** ** Results about [handleApply] *)

(** C7: when the selected variant is being generated, is in error or has no
    file, [handleApply] returns without any event, so without calling
    [onApply], and leaves the state as it is. *)
Theorem apply_does_nothing_when_not_eligible (item : option WardrobeItem)
    (m : Machine) (v : Variation) :
  variations (modal m) !! selectedVariationIndex (modal m) = Some v →
  status v = S_generating ∨ status v = S_error ∨ file v = None →
  handleApply item m = (Returned tt, m).
Proof.
  intros Hv Hcase. unfold handleApply, bind, read, ret. cbn.
  destruct item as [it|]; [|done]. rewrite Hv. cbn.
  destruct (file v) as [g|] eqn:Hf; [|done].
  destruct Hcase as [Hs|[Hs|Hs]]; [| |done]; by rewrite Hs.
Qed.

Lemma apply_does_nothing_when_not_eligible_witness :
  handleApply (Some Demo.shirt)
    (mkMachine (mkModal [original_variation Demo.shirt Demo.shirt_file;
                         generating_variation "#111111"] 1 true None) 3 [])
  = (Returned tt,
     mkMachine (mkModal [original_variation Demo.shirt Demo.shirt_file;
                         generating_variation "#111111"] 1 true None) 3 []).
Proof.
  apply (apply_does_nothing_when_not_eligible (Some Demo.shirt) _
           (generating_variation "#111111")).
  - reflexivity.
  - left. reflexivity.
Defined.

(** C10: [handleApply] never throws; when the selected index is past the end
    of the list, or the selected variant has no file, it returns without any
    event and without reading the missing variant. *)
Theorem apply_is_safe_for_every_index (item : option WardrobeItem) (m : Machine) :
  (∃ m', handleApply item m = (Returned tt, m')) ∧
  ((length (variations (modal m)) ≤ selectedVariationIndex (modal m))%nat ∨
   (∃ v, variations (modal m) !! selectedVariationIndex (modal m) = Some v ∧
         file v = None) →
   handleApply item m = (Returned tt, m)).
Proof.
  unfold handleApply, bind, read, ret, emit, throw. cbn. split.
  - destruct item as [it|]; [|by eauto].
    destruct (variations (modal m) !! selectedVariationIndex (modal m))
      as [v|]; cbn; [|by eauto].
    destruct (file v); [|by eauto].
    destruct (_ || _); eauto.
  - destruct item as [it|]; [|done].
    intros [Hge|(v & Hv & Hf)].
    + apply lookup_ge_None in Hge. by rewrite Hge.
    + rewrite Hv. cbn. by rewrite Hf.
Qed.

Lemma apply_is_safe_for_every_index_witness :
  handleApply (Some Demo.shirt)
    (mkMachine (mkModal [original_variation Demo.shirt Demo.shirt_file] 1 false None)
               1 [])
  = (Returned tt,
     mkMachine (mkModal [original_variation Demo.shirt Demo.shirt_file] 1 false None)
               1 []).
Proof.
  apply (proj2 (apply_is_safe_for_every_index (Some Demo.shirt) _)).
  left. cbn. lia.
Defined.

(** ** The key of the original variant *)

Section Reachable.
Context (W : World).

(** The generation handler never throws, and either leaves the variant list
    alone or appends a batch and runs it. *)
Lemma handleGenerateVariations_total item m :
  ∃ m', handleGenerateVariations W item m = (Returned tt, m') ∧
        (variations (modal m') = variations (modal m) ∨
         ∃ colors,
           Forall2 (evolves colors)
             (variations (modal m) ++ (generating_variation <$> colors))
             (variations (modal m'))).
Proof.
  destruct item as [it|].
  2: { exists m. split; [|by left].
       apply handleGenerateVariations_not_ready. by left. }
  destruct (variations (modal m) !! 0) as [first|] eqn:H0.
  2: { exists m. split; [|by left].
       apply handleGenerateVariations_not_ready. right. left.
       destruct (variations (modal m)); [done|discriminate]. }
  destruct (file first) as [f|] eqn:Hf.
  2: { exists m. split; [|by left].
       apply handleGenerateVariations_not_ready. right. right. eauto. }
  destruct (getHarmonicColors W f (batch_started m)) as [[colors|e] m1] eqn:Hc.
  - destruct (batch_run W it first f m m1 colors H0 Hf Hc) as (m' & Hrun & Hev & _).
    exists m'. split; [done|]. right. by exists colors.
  - destruct (getHarmonicColors_frame W _ _ _ _ Hc) as [Hm1 _].
    exists (batch_finished (suggestion_failed m1)).
    rewrite (handleGenerateVariations_ready W it first f m H0 Hf).
    split; [by apply generate_batch_no_colors with e|].
    left. cbn. by rewrite Hm1.
Qed.

(** The effect on [item] leaves the list alone or installs the original. *)
Lemma item_effect_variations item m :
  variations (modal (snd (item_effect W item m))) = variations (modal m) ∨
  ∃ it f, variations (modal (snd (item_effect W item m)))
            = [original_variation it f].
Proof.
  destruct item as [it|]; [|by left]. unfold item_effect. unfold_js. cbn.
  destruct (w_urlToFile W (clock m) (Item.url it) (Item.name it)); cbn.
  - right. eauto.
  - by left.
Qed.

Lemma evolves_keeps_keyed colors old new :
  Forall2 (evolves colors) (old ++ (generating_variation <$> colors)) new →
  originals_keyed old → originals_keyed new.
Proof.
  intros Hev Hold. unfold originals_keyed in *.
  assert (Forall (λ v, status v = S_original → hex v = "original")
            (old ++ (generating_variation <$> colors))) as Hall.
  { apply Forall_app. split; [done|]. apply Forall_fmap, Forall_forall.
    intros c _. cbn. discriminate. }
  clear Hold. induction Hev as [|v v' l k Hv _ IH]; [constructor|].
  apply Forall_cons in Hall as [Hhead Htail]. constructor; [|by apply IH].
  intros Hs. rewrite (ev_hex _ _ _ Hv). apply Hhead. by apply Hv.
Qed.

(** In every state the modal can reach, a variant in status original has
    the key [original]. *)
Lemma reachable_keyed m :
  reachable W m → originals_keyed (variations (modal m)).
Proof.
  induction 1 as [|item m _ IH|item m _ IH|index m _ IH|item m _ IH].
  - constructor.
  - destruct (item_effect_variations item m) as [->|(it & f & ->)]; [done|].
    constructor; [done|constructor].
  - destruct (handleGenerateVariations_total item m) as (m' & Hrun & Hcase).
    rewrite Hrun. cbn [snd].
    destruct Hcase as [->|(colors & Hev)]; [done|].
    by eapply evolves_keeps_keyed.
  - done.
  - unfold handleApply, bind, read, ret, emit, throw. cbn.
    destruct item; [|done].
    destruct (variations (modal m) !! selectedVariationIndex (modal m))
      as [v|]; cbn; [|done].
    destruct (file v); [|done]. by destruct (_ || _).
Qed.

End Reachable.

(** C8: for a selected variant that has a file and is the original or done,
    [handleApply] calls [onApply] once, with the file and an item whose id is
    the base id followed by a dash and the colour key, whose name is the base
    name for the original and the base name followed by the key in
    parentheses otherwise, and whose location is the one of the variant; in
    every reachable state the id of the original ends in [-original]. *)
Theorem apply_hands_derived_identity (it : WardrobeItem) (m : Machine)
    (v : Variation) (garmentFile : File) :
  variations (modal m) !! selectedVariationIndex (modal m) = Some v →
  file v = Some garmentFile →
  status v = S_original ∨ status v = S_done →
  ∃ info,
    handleApply (Some it) m
      = (Returned tt,
         mkMachine (modal m) (clock m) (trace m ++ [EvOnApply garmentFile info])) ∧
    Item.id info = Item.id it +:+ "-" +:+ hex v ∧
    (status v = S_original → Item.name info = Item.name it) ∧
    (status v = S_done →
     Item.name info = Item.name it +:+ " (" +:+ hex v +:+ ")") ∧
    Item.url info = url v ∧
    Item.description info = Item.description it ∧
    Item.brand info = Item.brand it ∧
    (originals_keyed (variations (modal m)) → status v = S_original →
     Item.id info = Item.id it +:+ "-original").
Proof.
  intros Hv Hf Hs. exists (derived_info it v).
  split.
  - unfold handleApply, bind, read, ret, emit. cbn. rewrite Hv. cbn. rewrite Hf.
    by destruct Hs as [->| ->].
  - unfold derived_info. cbn.
    split; [done|]. split; [by intros ->|]. split; [by intros ->|].
    do 3 (split; [done|]).
    intros Hk Ho. unfold originals_keyed in Hk.
    rewrite Forall_lookup in Hk. by rewrite (Hk _ _ Hv Ho).
Qed.

Lemma apply_hands_derived_identity_witness :
  ∃ info,
    handleApply (Some Demo.shirt) Demo.with_done
      = (Returned tt,
         mkMachine (modal Demo.with_done) (clock Demo.with_done)
           (trace Demo.with_done
              ++ [EvOnApply (mkFile "Shirt-#A0D2DB.png" "image/png" "data:old") info])) ∧
    Item.id info = "g1-#A0D2DB" ∧
    Item.name info = "Shirt (#A0D2DB)".
Proof.
  destruct (apply_hands_derived_identity Demo.shirt Demo.with_done
              (mkVariation "#A0D2DB" "data:old"
                 (Some (mkFile "Shirt-#A0D2DB.png" "image/png" "data:old")) S_done)
              (mkFile "Shirt-#A0D2DB.png" "image/png" "data:old")
              eq_refl eq_refl (or_intror eq_refl))
    as (info & Hrun & Hid & _ & Hname & _).
  exists info. split; [exact Hrun|]. split; [exact Hid|]. exact (Hname eq_refl).
Defined.

(** ** Data URLs *)

Lemma lacks_app c a b : lacks c (a +:+ b) = lacks c a && lacks c b.
Proof.
  induction a as [|x a IH]; simpl; [done|]. rewrite IH. by rewrite andb_assoc.
Qed.

(** A string without the separator is a single piece. *)
Lemma split_on_lacks sep s : lacks sep s = true → split_on sep s = [s].
Proof.
  induction s as [|x s IH]; cbn; [done|].
  intros [Hx Hs]%andb_true_iff. apply negb_true_iff in Hx. rewrite Hx.
  by rewrite (IH Hs).
Qed.

(** The first separator ends the first piece. *)
Lemma split_on_first sep a b :
  lacks sep a = true →
  split_on sep (a +:+ String sep b) = a :: split_on sep b.
Proof.
  induction a as [|x a IH]; simpl.
  - intros _. by rewrite Ascii.eqb_refl.
  - intros [Hx Ha]%andb_true_iff. apply negb_true_iff in Hx. rewrite Hx.
    by rewrite (IH Ha).
Qed.

(** No piece holds the separator. *)
Lemma split_on_pieces sep s : Forall (λ p, lacks sep p = true) (split_on sep s).
Proof.
  induction s as [|x s IH]; cbn; [by repeat constructor|].
  destruct (Ascii.eqb x sep) eqn:Hx; [by constructor|].
  destruct (split_on sep s) as [|p ps]; [by repeat constructor; cbn; rewrite Hx|].
  apply Forall_cons in IH as [Hp Hps]. constructor; [|done].
  cbn. by rewrite Hx, Hp.
Qed.

Lemma split_on_cons sep s : ∃ p ps, split_on sep s = p :: ps.
Proof.
  destruct s as [|x s]; cbn; [by eauto|].
  destruct (Ascii.eqb x sep); [by eauto|].
  destruct (split_on sep s); eauto.
Qed.

(** A string without separator is the only one to give fewer than two
    pieces. *)
Lemma split_on_short sep s :
  Nat.ltb (length (split_on sep s)) 2 = lacks sep s.
Proof.
  induction s as [|x s IH]; cbn; [done|].
  destruct (split_on_cons sep s) as (p & ps & Hs). rewrite Hs in *.
  destruct (Ascii.eqb x sep) eqn:Hx; cbn; [done|].
  rewrite <- IH. done.
Qed.

(** A semicolon put after a string starts no line terminator in it. *)
Lemma is_line_terminator_before_semicolon x a b :
  is_line_terminator (String x a +:+ String semicolon b)
  = is_line_terminator (String x a).
Proof.
  destruct a as [|c2 [|c3 a]]; [destruct b as [|c b]| |]; try reflexivity.
  - change (String x EmptyString +:+ String semicolon (String c b))
      with (String x (String semicolon (String c b))).
    unfold is_line_terminator.
    change (Nat.eqb (code semicolon) 128) with false.
    by rewrite andb_false_r.
  - change (String x (String c2 EmptyString) +:+ String semicolon b)
      with (String x (String c2 (String semicolon b))).
    unfold is_line_terminator.
    change (Nat.eqb (code semicolon) 168) with false.
    change (Nat.eqb (code semicolon) 169) with false.
    by rewrite andb_false_r.
Qed.

Lemma lazy_capture_found a b :
  lacks semicolon a = true → one_line a = true →
  lazy_capture (a +:+ String semicolon b) = Some a.
Proof.
  induction a as [|x a IH]; [done|].
  cbn [lacks one_line].
  intros [Hx Ha]%andb_true_iff [Hl Hla]%andb_true_iff.
  apply negb_true_iff in Hx, Hl.
  change (lazy_capture (String x a +:+ String semicolon b))
    with (if Ascii.eqb x semicolon then Some EmptyString
          else if is_line_terminator (String x a +:+ String semicolon b) then None
          else String x <$> lazy_capture (a +:+ String semicolon b)).
  rewrite Hx, is_line_terminator_before_semicolon, Hl, (IH Ha Hla). done.
Qed.

(** Where the group of a match ends. *)
Lemma lazy_capture_split s g :
  lazy_capture s = Some g →
  (∃ b, s = g +:+ String semicolon b) ∧
  lacks semicolon g = true ∧ one_line g = true.
Proof.
  revert g. induction s as [|x s IH]; [done|]. intros g.
  change (lazy_capture (String x s))
    with (if Ascii.eqb x semicolon then Some EmptyString
          else if is_line_terminator (String x s) then None
          else String x <$> lazy_capture s).
  destruct (Ascii.eqb x semicolon) eqn:Hx.
  - intros [= <-]. apply Ascii.eqb_eq in Hx as ->. split; [by exists s|done].
  - destruct (is_line_terminator (String x s)) eqn:Hl; [done|].
    destruct (lazy_capture s) as [g'|]; [|done]. cbn. intros [= <-].
    destruct (IH g' eq_refl) as ((b & ->) & H1 & H2).
    split; [by exists b|]. cbn [lacks one_line]. rewrite Hx, H1, H2.
    change (String x (g' +:+ String semicolon b))
      with (String x g' +:+ String semicolon b) in Hl.
    rewrite is_line_terminator_before_semicolon in Hl. by rewrite Hl.
Qed.

(** What the group of a match is made of. *)
Lemma lazy_capture_group s g :
  lazy_capture s = Some g →
  lacks semicolon g = true ∧ one_line g = true ∧
  ∀ c, lacks c s = true → lacks c g = true.
Proof.
  intros ((b & ->) & H1 & H2)%lazy_capture_split. do 2 (split; [done|]).
  intros c Hc. clear H1 H2. induction g as [|x g IH]; [done|].
  cbn in Hc |- *. apply andb_true_iff in Hc as [Hx Hc].
  by rewrite Hx, (IH Hc).
Qed.

Lemma match_mime_group s g :
  match_mime s = Some g →
  lacks semicolon g = true ∧ one_line g = true ∧
  ∀ c, lacks c s = true → lacks c g = true.
Proof.
  revert g. induction s as [|x s IH]; cbn; [done|]. intros g.
  assert (∀ c, negb (Ascii.eqb x c) && lacks c s = true → lacks c s = true)
    as Htail by (by intros c [_ ?]%andb_true_iff).
  destruct (Ascii.eqb x colon).
  - destruct (lazy_capture s) as [g'|] eqn:Hg.
    + intros [= <-]. destruct (lazy_capture_group s g' Hg) as (H1 & H2 & H3).
      repeat split; try done. intros c Hc. apply H3, Htail, Hc.
    + intros Hm. destruct (IH g Hm) as (H1 & H2 & H3).
      repeat split; try done. intros c Hc. apply H3, Htail, Hc.
  - intros Hm. destruct (IH g Hm) as (H1 & H2 & H3).
    repeat split; try done. intros c Hc. apply H3, Htail, Hc.
Qed.

Lemma append_cons x a b : String x a +:+ b = String x (a +:+ b).
Proof. reflexivity. Qed.

Lemma append_assoc a b c : (a +:+ b) +:+ c = a +:+ b +:+ c.
Proof.
  induction a as [|x a IH]; [reflexivity|].
  rewrite !append_cons. by rewrite IH.
Qed.

Lemma data_url_pieces mime dat :
  "data:" +:+ mime +:+ ";base64," +:+ dat
  = ("data:" +:+ mime +:+ ";base64") +:+ String comma dat.
Proof. by rewrite !append_assoc. Qed.

Lemma match_mime_data_url mime :
  lacks semicolon mime = true → one_line mime = true →
  match_mime ("data:" +:+ mime +:+ ";base64") = Some mime.
Proof.
  intros Hs Hl.
  change ("data:" +:+ mime +:+ ";base64")
    with (String "d" (String "a" (String "t" (String "a"
            (String colon (mime +:+ String semicolon "base64")))))).
  cbn [match_mime]. change (Ascii.eqb colon colon) with true.
  cbv iota. by rewrite lazy_capture_found.
Qed.

(** The data URL of a plain part is parsed back into the part. *)
Lemma dataUrlToParts_data_url d :
  plain_part d = true → dataUrlToParts (data_url d) = Returned d.
Proof.
  destruct d as [mime dat]. unfold plain_part, data_url. cbn [mimeType data].
  intros H.
  apply andb_true_iff in H as [H Hd]. apply andb_true_iff in H as [H Hl].
  apply andb_true_iff in H as [H Hs]. apply andb_true_iff in H as [Hne Hc].
  unfold dataUrlToParts. rewrite data_url_pieces, split_on_first.
  2: { rewrite !lacks_app, Hc. reflexivity. }
  rewrite (split_on_lacks comma dat Hd). cbn [length nth Nat.ltb Nat.leb].
  rewrite (match_mime_data_url mime Hs Hl).
  destruct mime; [discriminate|done].
Qed.

(** A character missing from a string is missing from all its pieces. *)
Lemma split_on_lacks_all c sep s :
  lacks c s = true → Forall (λ p, lacks c p = true) (split_on sep s).
Proof.
  induction s as [|x s IH]; cbn; [by repeat constructor|].
  intros [Hx Hs]%andb_true_iff. specialize (IH Hs).
  destruct (Ascii.eqb x sep); [by constructor|].
  destruct (split_on sep s) as [|p ps]; [by repeat constructor; cbn; rewrite Hx|].
  apply Forall_cons in IH as [Hp Hps]. constructor; [|done].
  cbn. by rewrite Hx, Hp.
Qed.

(** The pattern needs a colon and a semicolon. *)
Lemma lazy_capture_needs s g :
  lazy_capture s = Some g → lacks semicolon s = false.
Proof.
  intros ((b & ->) & _)%lazy_capture_split. clear.
  induction g as [|x g IH]; [done|].
  change (String x g +:+ String semicolon b)
    with (String x (g +:+ String semicolon b)).
  cbn [lacks]. by rewrite IH, andb_false_r.
Qed.

Lemma match_mime_needs s g :
  match_mime s = Some g → lacks colon s = false ∧ lacks semicolon s = false.
Proof.
  revert g. induction s as [|x s IH]; cbn; [done|]. intros g.
  destruct (Ascii.eqb x colon) eqn:Hx.
  - destruct (lazy_capture s) as [g'|] eqn:Hg.
    + intros _. split; [done|]. rewrite (lazy_capture_needs s g' Hg).
      by rewrite andb_false_r.
    + intros Hm. destruct (IH g Hm) as [_ H2]. split; [done|].
      by rewrite H2, andb_false_r.
  - intros Hm. destruct (IH g Hm) as [H1 H2]. by rewrite H1, H2, !andb_false_r.
Qed.

(** X1: the data URL built from an image part, as [handleApiResponse] builds
    it, is parsed back by [dataUrlToPart] into the same part, whenever the
    MIME type is not empty, is of one line and has no comma or semicolon, and
    the data have no comma. *)
Theorem data_url_round_trip (d : InlineData) :
  plain_part d = true → dataUrlToPart (data_url d) = Returned d.
Proof.
  intros H. unfold dataUrlToPart. rewrite (dataUrlToParts_data_url d H).
  by destruct d.
Qed.

Lemma data_url_round_trip_witness :
  dataUrlToPart "data:image/png;base64,AAAA" = Returned Demo.png.
Proof. exact (data_url_round_trip Demo.png eq_refl). Defined.

(** X2: whatever [dataUrlToParts] returns is a part in normal form: its MIME
    type is not empty, of one line, without comma or semicolon, its data are
    without comma, and the data URL built from it is parsed into it again. *)
Theorem dataUrlToParts_returns_plain_parts (dataUrl : string) (p : InlineData) :
  dataUrlToParts dataUrl = Returned p →
  plain_part p = true ∧ dataUrlToParts (data_url p) = Returned p.
Proof.
  intros H. assert (plain_part p = true) as Hp; [|by split; [|apply dataUrlToParts_data_url]].
  unfold dataUrlToParts in H.
  pose proof (split_on_pieces comma dataUrl) as Hpieces.
  destruct (split_on comma dataUrl) as [|p0 [|p1 ps]]; [done|done|].
  cbn [length nth Nat.ltb Nat.leb] in H.
  apply Forall_cons in Hpieces as [H0 [H1 _]%Forall_cons].
  destruct (match_mime p0) as [[|x mime]|] eqn:Hm; [done| |done].
  injection H as <-. destruct (match_mime_group _ _ Hm) as (Hs & Hl & Hsub).
  unfold plain_part. cbn [mimeType data].
  rewrite (Hsub comma H0), Hs, Hl, H1. done.
Qed.

Lemma dataUrlToParts_returns_plain_parts_witness :
  plain_part (mkInlineData "b:c" "xx") = true ∧
  dataUrlToParts (data_url (mkInlineData "b:c" "xx"))
    = Returned (mkInlineData "b:c" "xx").
Proof. exact (dataUrlToParts_returns_plain_parts "a:b:c;d;e,xx,yy" _ eq_refl). Defined.

(** A data URL needs a comma, a colon and a semicolon. *)
Lemma dataUrlToParts_needs dataUrl :
  lacks comma dataUrl = true ∨ lacks colon dataUrl = true
  ∨ lacks semicolon dataUrl = true →
  ∃ e, dataUrlToParts dataUrl = Thrown e.
Proof.
  unfold dataUrlToParts. rewrite split_on_short.
  intros Hor. destruct (lacks comma dataUrl); [by eauto|].
  destruct (match_mime _) as [[|x g]|] eqn:Hm; [by eauto| |by eauto].
  exfalso. apply match_mime_needs in Hm as [Hc Hs].
  destruct (split_on_cons comma dataUrl) as (p0 & ps & Hsplit).
  rewrite Hsplit in Hc, Hs. cbn in Hc, Hs.
  destruct Hor as [H|[H|H]]; [done| |];
    apply (split_on_lacks_all _ comma) in H; rewrite Hsplit in H;
    apply Forall_cons in H as [H _]; congruence.
Qed.

(** X3: [dataUrlToParts] throws [Invalid data URL] exactly for the strings
    without a comma, and throws for every string without a colon or without
    a semicolon. *)
Theorem dataUrlToParts_rejects (dataUrl : string) :
  (dataUrlToParts dataUrl = Thrown "Invalid data URL" ↔ lacks comma dataUrl = true) ∧
  (lacks colon dataUrl = true ∨ lacks semicolon dataUrl = true →
   ∃ e, dataUrlToParts dataUrl = Thrown e).
Proof.
  split.
  - unfold dataUrlToParts. rewrite split_on_short.
    destruct (lacks comma dataUrl); [done|]. split; [|done].
    by destruct (match_mime _) as [[|??]|].
  - intros Hor. apply dataUrlToParts_needs. tauto.
Qed.

Lemma dataUrlToParts_rejects_witness :
  ∃ e, dataUrlToParts "data,image/png;base64" = Thrown e.
Proof.
  apply (proj2 (dataUrlToParts_rejects "data,image/png;base64")).
  left. reflexivity.
Defined.


(** ** The answer of the image model *)

Lemma find_inlineData_head ps : find_inlineData ps = head (omap inlineData ps).
Proof.
  induction ps as [|p ps IH]; cbn; [done|]. by destruct (inlineData p).
Qed.

Lemma first_image_head cs :
  first_image cs = head (c ← cs; omap inlineData (default [] (parts c))).
Proof.
  induction cs as [|c cs IH]; cbn; [done|].
  rewrite find_inlineData_head, IH.
  by destruct (omap inlineData (default [] (parts c))).
Qed.

(** What [handleApiResponse] returns, when it returns. *)
Lemma handleApiResponse_returned response u :
  handleApiResponse response = Returned u →
  blocked response = false ∧
  ∃ d, head (image_parts response) = Some d ∧ u = data_url d.
Proof.
  unfold handleApiResponse, blocked, image_parts. rewrite first_image_head.
  destruct (promptFeedback response) as [fb|].
  - destruct (truthy_string (blockReason fb)); [done|].
    destruct (head _) as [d|]; [intros [= <-]; eauto|].
    by destruct (_ && _).
  - destruct (head _) as [d|]; [intros [= <-]; eauto|].
    by destruct (_ && _).
Qed.

(** X4: [handleApiResponse] returns exactly when the response is not blocked
    and some candidate has an image part; the URL is then built from the
    first image part of the first such candidate, whatever the finish reasons
    and the text are.  A blocked response throws even when it carries an
    image. *)
Theorem handleApiResponse_returns_iff (response : GenerateContentResponse)
    (u : string) :
  handleApiResponse response = Returned u ↔
  blocked response = false ∧
  ∃ d, head (image_parts response) = Some d ∧ u = data_url d.
Proof.
  split; [apply handleApiResponse_returned|].
  intros (Hb & d & Hd & ->).
  unfold handleApiResponse, blocked, image_parts in *.
  rewrite first_image_head, Hd.
  destruct (promptFeedback response) as [fb|]; [|done]. by rewrite Hb.
Qed.

Section OtherRequestsFacts.
Context (W : World).

(** X5: a URL that [handleApiResponse] returned for a plain image part is
    accepted by the two functions that take a data URL: they send this very
    part to the image model, the try-on before the part of the garment
    file. *)
Theorem returned_url_is_sent_back (response : GenerateContentResponse)
    (u : string) (d : InlineData) :
  handleApiResponse response = Returned u →
  head (image_parts response) = Some d →
  plain_part d = true →
  (∀ garmentImage m,
     generateVirtualTryOnImage W u garmentImage m
     = (garmentImagePart <- fileToPart W garmentImage ;;
        answer <- generateContent W
                    (mkRequest imageModel [d; garmentImagePart] tryOnPrompt false) ;;
        lift (handleApiResponse answer)) m) ∧
  (∀ poseInstruction m,
     generatePoseVariation W u poseInstruction m
     = (answer <- generateContent W
                    (mkRequest imageModel [d] (posePrompt poseInstruction) false) ;;
        lift (handleApiResponse answer)) m).
Proof.
  intros Hu Hd Hp.
  apply handleApiResponse_returned in Hu as (_ & d' & Hd' & ->).
  rewrite Hd in Hd'. injection Hd' as <-.
  pose proof (dataUrlToParts_data_url d Hp) as Hparse.
  assert (dataUrlToPart (data_url d) = Returned d) as Hpart
    by (unfold dataUrlToPart; rewrite Hparse; by destruct d).
  split; intros; unfold generateVirtualTryOnImage, generatePoseVariation;
    unfold bind at 1; unfold lift at 1; by rewrite Hpart.
Qed.

(** X6: a URL without comma, colon or semicolon makes the try-on and the
    pose request throw at once: nothing is asked of the browser or of the
    model, and the machine is as before. *)
Theorem malformed_url_is_rejected_first (dataUrl : string) (garmentImage : File)
    (poseInstruction : string) (m : Machine) :
  lacks comma dataUrl = true ∨ lacks colon dataUrl = true
  ∨ lacks semicolon dataUrl = true →
  ∃ e, generateVirtualTryOnImage W dataUrl garmentImage m = (Thrown e, m) ∧
       generatePoseVariation W dataUrl poseInstruction m = (Thrown e, m).
Proof.
  intros H. destruct (dataUrlToParts_needs dataUrl H) as (e & He).
  exists e. unfold generateVirtualTryOnImage, generatePoseVariation, bind, lift,
    dataUrlToPart. by rewrite He.
Qed.

(** The three awaits of an image request. *)
Lemma image_request_returned req (part : M InlineData) m u m1 :
  (p <- part ;; answer <- generateContent W (req p) ;;
   lift (handleApiResponse answer)) m = (Returned u, m1) →
  ∃ d, u = data_url d.
Proof.
  unfold bind, lift, generateContent, await.
  destruct (part m) as [[p|e] m0]; [|done].
  destruct (w_generateContent W _ _) as [answer|]; [|done].
  destruct (handleApiResponse answer) as [u'|e] eqn:Ha; [|done].
  intros [= <- _]. apply handleApiResponse_returned in Ha as (_ & d & _ & ->).
  by exists d.
Qed.

(** The answer behind the URL an image request returns. *)
Lemma image_request_answer req (part : M InlineData) m u m1 :
  (p <- part ;; answer <- generateContent W (req p) ;;
   lift (handleApiResponse answer)) m = (Returned u, m1) →
  ∃ p m0, part m = (Returned p, m0) ∧ answered_with W (clock m0) (req p) u.
Proof.
  unfold bind, lift, generateContent, await, answered_with.
  destruct (part m) as [[p|e] m0]; [|done].
  destruct (w_generateContent W _ _) as [answer|] eqn:Hg; [|done].
  destruct (handleApiResponse answer) as [u'|e] eqn:Ha; [|done].
  intros [= <- _]. apply handleApiResponse_returned in Ha as (Hb & d & Hd & ->).
  exists p, m0. split; [done|]. by exists answer, d.
Qed.

Lemma fileToPart_returned f m p m0 :
  fileToPart W f m = (Returned p, m0) →
  w_fileToPart W (clock m) f = Some p ∧ clock m0 = S (clock m).
Proof.
  unfold fileToPart, await. destruct (w_fileToPart W (clock m) f); [|done].
  by intros [= <- <-].
Qed.

(** X7: what the four image requests of the client return is the data URL
    of the first image part of the answer that the model gave, not blocked,
    to their own request: the request made of the part read from the file, or
    parsed from the URL given, and of their prompt. *)
Theorem image_requests_return_data_urls (m m1 : Machine) (u : string) :
  (∀ userImage,
     generateModelImage W userImage m = (Returned u, m1) →
     ∃ p, w_fileToPart W (clock m) userImage = Some p ∧
          answered_with W (S (clock m))
            (mkRequest imageModel [p] modelPrompt false) u) ∧
  (∀ modelImageUrl garmentImage,
     generateVirtualTryOnImage W modelImageUrl garmentImage m = (Returned u, m1) →
     ∃ mp p, dataUrlToPart modelImageUrl = Returned mp ∧
             w_fileToPart W (clock m) garmentImage = Some p ∧
             answered_with W (S (clock m))
               (mkRequest imageModel [mp; p] tryOnPrompt false) u) ∧
  (∀ tryOnImageUrl poseInstruction,
     generatePoseVariation W tryOnImageUrl poseInstruction m = (Returned u, m1) →
     ∃ tp, dataUrlToPart tryOnImageUrl = Returned tp ∧
           answered_with W (clock m)
             (mkRequest imageModel [tp] (posePrompt poseInstruction) false) u) ∧
  (∀ garmentImage colorHex,
     recolorGarment W garmentImage colorHex m = (Returned u, m1) →
     ∃ p, w_fileToPart W (clock m) garmentImage = Some p ∧
          answered_with W (S (clock m))
            (mkRequest imageModel [p] (recolorPrompt colorHex) false) u).
Proof.
  repeat split.
  - intros userImage H.
    apply (image_request_answer
             (λ p, mkRequest imageModel [p] modelPrompt false)
             (fileToPart W userImage)) in H as (p & m0 & Hp & Ha).
    apply fileToPart_returned in Hp as [Hp Hc]. rewrite Hc in Ha. by exists p.
  - intros modelImageUrl garmentImage. unfold generateVirtualTryOnImage.
    unfold bind at 1. unfold lift at 1.
    destruct (dataUrlToPart modelImageUrl) as [mp|e]; [|done]. intros H.
    apply (image_request_answer
             (λ p, mkRequest imageModel [mp; p] tryOnPrompt false)
             (fileToPart W garmentImage)) in H as (p & m0 & Hp & Ha).
    apply fileToPart_returned in Hp as [Hp Hc]. rewrite Hc in Ha.
    by exists mp, p.
  - intros tryOnImageUrl poseInstruction H.
    apply (image_request_answer
             (λ p, mkRequest imageModel [p] (posePrompt poseInstruction) false)
             (lift (dataUrlToPart tryOnImageUrl))) in H as (tp & m0 & Hp & Ha).
    unfold lift in Hp. injection Hp as Hp <-. by exists tp.
  - intros garmentImage colorHex. unfold recolorGarment.
    unfold bind at 1. unfold emit at 1. intros H.
    apply (image_request_answer
             (λ p, mkRequest imageModel [p] (recolorPrompt colorHex) false)
             (fileToPart W garmentImage)) in H as (p & m0 & Hp & Ha).
    apply fileToPart_returned in Hp as [Hp Hc]. cbn in Hp, Hc. rewrite Hc in Ha.
    by exists p.
Qed.

End OtherRequestsFacts.

(** ** The history of the variants over a batch *)

Lemma settles_updated (g : Variation → Variation) l0 l :
  (∀ v v', settles v v' → settles v (g v')) →
  Forall2 settles l0 l → Forall2 settles l0 (g <$> l).
Proof. intros Hg. induction 1; cbn; constructor; auto. Qed.

Section History.
Context (W : World).

(** A recolouring that succeeds gives a data URL of the image model. *)
Lemma recolour_returned it f c m u fl m1 :
  recolour W it f c m = (Returned (u, fl), m1) → ∃ d, u = data_url d.
Proof.
  unfold recolour. unfold bind at 1.
  destruct (recolorGarment W f c m) as [[u'|e] m0] eqn:Hr; [|done].
  unfold bind, urlToFile, emit, await, ret. cbn.
  destruct (w_urlToFile W _ _ _); [|done]. intros [= <- _ _].
  unfold recolorGarment in Hr. unfold bind at 1 in Hr. unfold emit at 1 in Hr.
  by apply image_request_returned in Hr.
Qed.

Lemma generate_one_settles it f c m l0 :
  Forall2 settles l0 (variations (modal m)) →
  Forall2 settles l0 (variations (modal (snd (generate_one W it f c m)))).
Proof.
  intros H.
  destruct (recolour W it f c m) as [[[u fl]|e] m1] eqn:Hr;
    destruct (recolour_frame W _ _ _ _ _ _ Hr) as [Hm _].
  - destruct (recolour_returned _ _ _ _ _ _ _ Hr) as (d & ->).
    rewrite (generate_one_done W it f c m _ fl m1 Hr). cbn. rewrite Hm.
    apply settles_updated; [|done]. intros. by constructor.
  - rewrite (generate_one_failed W it f c m e m1 Hr). cbn. rewrite Hm.
    apply settles_updated; [|done]. intros. by constructor.
Qed.

Lemma for_of_settles it f cs m l0 :
  Forall2 settles l0 (variations (modal m)) →
  Forall2 settles l0
    (variations (modal (snd (for_of cs (generate_one W it f) m)))).
Proof.
  revert m. induction cs as [|c cs IH]; intros m H; [done|].
  cbn [for_of]. unfold bind.
  destruct (generate_one_run W it f c m) as (m1 & H1 & _).
  pose proof (generate_one_settles it f c m l0 H) as Hs.
  rewrite H1 in *. cbn [snd] in Hs. by apply IH.
Qed.

(** The ways the generation handler can run. *)
Lemma handler_cases item m :
  handleGenerateVariations W item m = (Returned tt, m) ∨
  ∃ it first f,
    item = Some it ∧ variations (modal m) !! 0 = Some first ∧
    file first = Some f ∧
    ((∃ e m1,
        getHarmonicColors W f (batch_started m) = (Thrown e, m1) ∧
        handleGenerateVariations W item m
          = (Returned tt, batch_finished (suggestion_failed m1)) ∧
        modal m1 = modal (batch_started m) ∧
        recolor_requests (trace m1) = recolor_requests (trace m)) ∨
     (∃ colors m1 m',
        getHarmonicColors W f (batch_started m) = (Returned colors, m1) ∧
        handleGenerateVariations W item m = (Returned tt, m') ∧
        Forall2 (evolves colors)
          (variations (modal m) ++ (generating_variation <$> colors))
          (variations (modal m')) ∧
        Forall2 settles
          (variations (modal m) ++ (generating_variation <$> colors))
          (variations (modal m')) ∧
        selectedVariationIndex (modal m') = selectedVariationIndex (modal m) ∧
        isGenerating (modal m') = false ∧
        error (modal m') = None ∧
        recolor_requests (trace m') = recolor_requests (trace m) ++ colors)).
Proof.
  destruct item as [it|].
  2: { left. apply handleGenerateVariations_not_ready. by left. }
  destruct (variations (modal m) !! 0) as [first|] eqn:H0.
  2: { left. apply handleGenerateVariations_not_ready. right. left.
       destruct (variations (modal m)); [done|discriminate]. }
  destruct (file first) as [f|] eqn:Hf.
  2: { left. apply handleGenerateVariations_not_ready. right. right. eauto. }
  right. exists it, first, f. do 3 (split; [done|]).
  destruct (getHarmonicColors W f (batch_started m)) as [[colors|e] m1] eqn:Hc;
    destruct (getHarmonicColors_frame W _ _ _ _ Hc) as [Hm1 Ht1].
  - right. destruct (batch_run W it first f m m1 colors H0 Hf Hc)
      as (m' & Hrun & Hev & Hsel & Hgen & Herr & Htr).
    exists colors, m1, m'. do 3 (split; [done|]). split; [|done].
    destruct (generate_batch_colors W it f m colors m1 Hc) as (m2 & Hloop & Hb).
    rewrite (handleGenerateVariations_ready W it first f m H0 Hf), Hb in Hrun.
    injection Hrun as <-. cbn.
    pose proof (for_of_settles it f colors (batch_appended colors m1)
                  (variations (modal (batch_appended colors m1)))) as Hs.
    rewrite Hloop in Hs. cbn [snd] in Hs.
    cbn in Hs. rewrite Hm1 in Hs. cbn in Hs. apply Hs.
    apply Forall_Forall2_diag, Forall_forall. intros. constructor.
  - left. exists e, m1. split; [done|].
    rewrite (handleGenerateVariations_ready W it first f m H0 Hf).
    split; [by apply generate_batch_no_colors with e|]. done.
Qed.

End History.

(** ** The modal between two runs of handlers *)

Lemma settles_content v v' :
  settles v v' →
  (status v = S_original ∨ status v = S_done → is_Some (file v)) ∧
  (status v = S_done → ∃ d, url v = data_url d) →
  (status v' = S_original ∨ status v' = S_done → is_Some (file v')) ∧
  (status v' = S_done → ∃ d, url v' = data_url d).
Proof.
  induction 1 as [v|c d fl v v' _ IH|c v v' _ IH]; intros Hv; [done| |].
  - specialize (IH Hv). unfold mark_done.
    destruct (_ && _); [|done]. cbn. split; [by eauto|]. intros _. by exists d.
  - specialize (IH Hv). unfold mark_error.
    destruct (String.eqb _ _); [|done]. cbn. split; [|done].
    by intros [?|?].
Qed.

Lemma settles_head v v' :
  settles v v' →
  hex v = "original" ∧ is_Some (file v) ∧
    (status v = S_original ∨ status v = S_error) →
  hex v' = "original" ∧ is_Some (file v') ∧
    (status v' = S_original ∨ status v' = S_error).
Proof.
  induction 1 as [v|c d fl v v' _ IH|c v v' _ IH]; intros Hv; [done| |].
  - destruct (IH Hv) as (Hh & Hf & Hs). unfold mark_done.
    assert (Status_eqb (status v') S_generating = false) as ->
      by (by destruct Hs as [-> | ->]).
    rewrite andb_false_r. auto.
  - destruct (IH Hv) as (Hh & Hf & Hs). unfold mark_error.
    destruct (String.eqb _ _); [|done]. cbn. auto.
Qed.

(** Where a variant of the list of a started batch comes from. *)
Lemma lookup_appended (old : list Variation) colors i v :
  (old ++ (generating_variation <$> colors)) !! i = Some v →
  old !! i = Some v ∨
  (∃ c, c ∈ colors ∧ v = generating_variation c).
Proof.
  intros [H|[_ H]]%lookup_app_Some; [by left|]. right.
  rewrite list_lookup_fmap in H.
  destruct (colors !! (i - length old)) as [c|] eqn:Hc; [|done].
  injection H as <-. exists c. split; [|done]. by eapply list_elem_of_lookup_2.
Qed.

Lemma handleApply_modal item m : modal (snd (handleApply item m)) = modal m.
Proof.
  unfold handleApply, bind, read, ret, emit, throw. cbn.
  destruct item; [|done].
  destruct (variations (modal m) !! selectedVariationIndex (modal m))
    as [v|]; cbn; [|done].
  destruct (file v); [|done]. by destruct (_ || _).
Qed.

Section AtRest.
Context (W : World).

Lemma at_rest_after_batch item m :
  at_rest (modal m) →
  at_rest (modal (snd (handleGenerateVariations W item m))).
Proof.
  intros [Hflag Hvs Hhead Horig].
  destruct (handler_cases W item m)
    as [->|(it & first & f & -> & H0 & Hf &
            [(e & m1 & _ & -> & Hm1 & _)
            |(colors & m1 & m' & _ & -> & Hev & Hse & _ & Hgen & _)])].
  - done.
  - cbn. rewrite Hm1. by split.
  - cbn [snd]. rewrite Forall_lookup in Hvs. split.
    + done.
    + apply Forall_lookup. intros i v' Hi.
      destruct (Forall2_lookup_r _ _ _ _ _ Hev Hi) as (v & Hv & Hevv).
      destruct (Forall2_lookup_r _ _ _ _ _ Hse Hi) as (v2 & Hv2 & Hsev).
      rewrite Hv in Hv2. injection Hv2 as <-.
      apply lookup_appended in Hv as [Hold|(c & Hc & ->)].
      * destruct (Hvs _ _ Hold) as (Hng & Hcontent).
        split; [|by apply (settles_content v v')].
        intros Hs. by apply Hevv in Hs as [? _].
      * split; [|apply (settles_content _ v' Hsev); by split; [intros [?|?]|]].
        intros Hs. by apply Hevv in Hs as [_ ?].
    + intros v' Hi.
      destruct (Forall2_lookup_r _ _ _ _ _ Hse Hi) as (v & Hv & Hsev).
      rewrite lookup_app_l in Hv by (by eapply lookup_lt_Some).
      apply (settles_head v v' Hsev), Hhead, Hv.
    + intros i v' Hi Hs.
      destruct (Forall2_lookup_r _ _ _ _ _ Hev Hi) as (v & Hv & Hevv).
      apply Hevv in Hs.
      apply lookup_appended in Hv as [Hold|(c & _ & ->)]; [|done].
      by eapply Horig.
Qed.

Lemma at_rest_after_item item m :
  at_rest (modal m) → at_rest (modal (snd (item_effect W item m))).
Proof.
  intros [Hflag Hvs Hhead Horig].
  destruct item as [it|]; [|done]. unfold item_effect. unfold_js. cbn.
  destruct (w_urlToFile W (clock m) (Item.url it) (Item.name it)); cbn.
  - split; cbn.
    + done.
    + constructor; [|constructor]. unfold variant_at_rest. cbn.
      split; [done|]. split; [by eauto|done].
    + intros v [= <-]. cbn. by eauto.
    + intros [|i] v; [done|]. by destruct i.
  - by split.
Qed.

(** In every state the modal can reach, it is at rest. *)
Lemma reachable_at_rest m : reachable W m → at_rest (modal m).
Proof.
  induction 1 as [|item m _ IH|item m _ IH|index m _ IH|item m _ IH].
  - split; cbn; try done.
  - by apply at_rest_after_item.
  - by apply at_rest_after_batch.
  - destruct IH. by split.
  - by rewrite handleApply_modal.
Qed.

End AtRest.

(** ** Further results about the modal *)

Section Modal.
Context (W : World).

(** X8: a batch leaves alone the selection and every variant that was there
    before and whose key is not one of the colours of the batch. *)
Theorem batch_leaves_other_keys (it : WardrobeItem) (first : Variation)
    (f : File) (m m1 : Machine) (colors : list string) :
  variations (modal m) !! 0 = Some first →
  file first = Some f →
  getHarmonicColors W f (batch_started m) = (Returned colors, m1) →
  ∃ m', handleGenerateVariations W (Some it) m = (Returned tt, m') ∧
        selectedVariationIndex (modal m') = selectedVariationIndex (modal m) ∧
        ∀ i v, variations (modal m) !! i = Some v → hex v ∉ colors →
               variations (modal m') !! i = Some v.
Proof.
  intros H0 Hf Hc.
  destruct (batch_run W it first f m m1 colors H0 Hf Hc)
    as (m' & Hrun & Hev & Hsel & _).
  exists m'. do 2 (split; [done|]). intros i v Hi Hn.
  assert ((variations (modal m) ++ (generating_variation <$> colors)) !! i = Some v)
    as Hi' by (by apply lookup_app_l_Some).
  destruct (Forall2_lookup_l _ _ _ _ _ Hev Hi') as (v' & Hv' & Hevv).
  by rewrite Hv', (ev_other _ _ _ Hevv Hn).
Qed.

(** X9: in every state the modal reaches between two runs of handlers, no
    batch is flagged in progress and no variant is in status generating, so
    that the Generate button is disabled by the host's loading flag alone. *)
Theorem reachable_is_settled (isLoading : bool) (item : option WardrobeItem)
    (m : Machine) :
  reachable W m →
  isGenerating (modal m) = false ∧
  (∀ v, v ∈ variations (modal m) → status v ≠ S_generating) ∧
  click_generate W isLoading item m
    = if isLoading then (Returned tt, m) else handleGenerateVariations W item m.
Proof.
  intros [Hflag Hvs _ _]%reachable_at_rest.
  split; [done|]. split.
  - intros v Hv. rewrite Forall_forall in Hvs. by apply Hvs.
  - unfold click_generate, bind, read. rewrite Hflag. by destruct isLoading.
Qed.

(** X10: in every reachable state a selected variant in status original or
    done has a file, and [handleApply] hands it to [onApply]: for these two
    statuses the test of the file never stops the call. *)
Theorem reachable_eligible_is_applied (it : WardrobeItem) (m : Machine)
    (v : Variation) :
  reachable W m →
  variations (modal m) !! selectedVariationIndex (modal m) = Some v →
  status v = S_original ∨ status v = S_done →
  ∃ garmentFile,
    file v = Some garmentFile ∧
    handleApply (Some it) m
      = (Returned tt,
         mkMachine (modal m) (clock m)
           (trace m ++ [EvOnApply garmentFile (derived_info it v)])).
Proof.
  intros [_ Hvs _ _]%reachable_at_rest Hv Hs.
  rewrite Forall_lookup in Hvs. destruct (Hvs _ _ Hv) as (_ & Hfile & _).
  destruct (Hfile Hs) as [garmentFile Hf]. exists garmentFile. split; [done|].
  unfold handleApply, bind, read, ret, emit. cbn. rewrite Hv. cbn. rewrite Hf.
  by destruct Hs as [-> | ->].
Qed.

(** X11: in every reachable state with a variant, the first variant has the
    key [original] and a file, so that the guard of the generation handler
    lets every call with an item through, and no other variant is in status
    original. *)
Theorem reachable_original_comes_first (it : WardrobeItem) (m : Machine) :
  reachable W m →
  variations (modal m) ≠ [] →
  ∃ first f,
    variations (modal m) !! 0 = Some first ∧
    hex first = "original" ∧
    file first = Some f ∧
    handleGenerateVariations W (Some it) m = generate_batch W it f m ∧
    ∀ i v, variations (modal m) !! i = Some v → status v = S_original → i = 0.
Proof.
  intros [_ _ Hhead Horig]%reachable_at_rest Hne.
  destruct (variations (modal m)) as [|first rest] eqn:Hvs; [done|].
  destruct (Hhead first eq_refl) as (Hh & [f Hf] & _).
  exists first, f. do 3 (split; [done|]). split; [|done].
  apply handleGenerateVariations_ready with first; [|done]. by rewrite Hvs.
Qed.


(** X15: neither the effect on the item nor the generation handler nor a
    click on a button throws: every failure of the browser or of the model is
    taken in by a [catch]. *)
Theorem modal_never_throws (isLoading : bool) (item : option WardrobeItem)
    (index : nat) (m : Machine) :
  fst (item_effect W item m) = Returned tt ∧
  fst (handleGenerateVariations W item m) = Returned tt ∧
  fst (click_generate W isLoading item m) = Returned tt ∧
  fst (click_swatch index m) = Returned tt ∧
  fst (click_apply isLoading item m) = Returned tt.
Proof.
  assert (fst (handleGenerateVariations W item m) = Returned tt) as Hgen.
  { destruct (handleGenerateVariations_total W item m) as (m' & -> & _). done. }
  assert (fst (handleApply item m) = Returned tt) as Happly.
  { unfold handleApply, bind, read, ret, emit, throw. cbn.
    destruct item; [|done].
    destruct (variations (modal m) !! selectedVariationIndex (modal m))
      as [v|]; cbn; [|done].
    destruct (file v); [|done]. by destruct (_ || _). }
  split.
  { destruct item as [it|]; [|done]. unfold item_effect. unfold_js. cbn.
    by destruct (w_urlToFile W (clock m) (Item.url it) (Item.name it)). }
  split; [done|]. split.
  { unfold click_generate, bind, read. by destruct (_ || _). }
  split.
  { unfold click_swatch, bind, read, ret, setSelectedVariationIndex, update.
    destruct (variations (modal m) !! index) as [v|]; [|done].
    by destruct (_ || _). }
  unfold click_apply, bind, read. by destruct (_ || _).
Qed.

(** X16: when the guard lets the call through, the handler asks for exactly
    one recolouring per colour that the suggestion call returned, in the
    order returned, and for none when the suggestion call throws. *)
Theorem batch_recolours_each_colour_once (it : WardrobeItem) (first : Variation)
    (f : File) (m : Machine) :
  variations (modal m) !! 0 = Some first →
  file first = Some f →
  ∃ m', handleGenerateVariations W (Some it) m = (Returned tt, m') ∧
        recolor_requests (trace m')
        = recolor_requests (trace m)
          ++ match fst (getHarmonicColors W f (batch_started m)) with
             | Returned colors => colors
             | Thrown _ => []
             end.
Proof.
  intros H0 Hf.
  destruct (getHarmonicColors W f (batch_started m)) as [[colors|e] m1] eqn:Hc.
  - destruct (batch_run W it first f m m1 colors H0 Hf Hc)
      as (m' & Hrun & _ & _ & _ & _ & Htr). by exists m'.
  - destruct (getHarmonicColors_frame W _ _ _ _ Hc) as [_ Ht].
    exists (batch_finished (suggestion_failed m1)).
    rewrite (handleGenerateVariations_ready W it first f m H0 Hf).
    split; [by apply generate_batch_no_colors with e|].
    cbn. unfold recolor_requests in *. by rewrite Ht, app_nil_r.
Qed.

End Modal.

(** ** The selection made through the swatches *)

Section Swatches.
Context (W : World).

Lemma selection_after_batch item m :
  (variations (modal m) = [] ∧ selectedVariationIndex (modal m) = 0)
  ∨ is_Some (variations (modal m) !! selectedVariationIndex (modal m)) →
  let m' := snd (handleGenerateVariations W item m) in
  (variations (modal m') = [] ∧ selectedVariationIndex (modal m') = 0)
  ∨ is_Some (variations (modal m') !! selectedVariationIndex (modal m')).
Proof.
  intros IH. cbv zeta.
  destruct (handler_cases W item m)
    as [->|(it & first & f & -> & H0 & Hf &
            [(e & m1 & _ & -> & Hm1 & _)
            |(colors & m1 & m' & _ & -> & Hev & _ & Hsel & _)])].
  - done.
  - cbn. by rewrite Hm1.
  - cbn [snd]. right. rewrite Hsel.
    destruct IH as [[Hnil _]|[v Hv]]; [by rewrite Hnil in H0|].
    assert ((variations (modal m) ++ (generating_variation <$> colors))
              !! selectedVariationIndex (modal m) = Some v)
      as Hv' by (by apply lookup_app_l_Some).
    destruct (Forall2_lookup_l _ _ _ _ _ Hev Hv') as (v' & -> & _). by eexists.
Qed.

(** X13: through the buttons the selected index never leaves the list: in
    every state reached by the effect on the item and clicks, either there is
    no variant and the index is 0, or the index is the one of a variant. *)
Theorem ui_selection_stays_in_range (m : Machine) :
  ui_reachable W m →
  (variations (modal m) = [] ∧ selectedVariationIndex (modal m) = 0)
  ∨ is_Some (variations (modal m) !! selectedVariationIndex (modal m)).
Proof.
  induction 1 as [|item m _ IH|isLoading it m _ IH|index m _ IH|isLoading it m _ IH].
  - by left.
  - destruct item as [it|]; [|done]. unfold item_effect. unfold_js. cbn.
    destruct (w_urlToFile W (clock m) (Item.url it) (Item.name it)); cbn; [|done].
    right. by eexists.
  - unfold click_generate, bind, read.
    destruct (_ || _); [done|]. by apply selection_after_batch.
  - unfold click_swatch, bind, read, ret, setSelectedVariationIndex, update.
    destruct (variations (modal m) !! index) as [v|] eqn:Hv; [|done].
    destruct (_ || _); [done|]. cbn. right. by rewrite Hv.
  - unfold click_apply, bind, read.
    destruct (_ || _); [done|]. by rewrite handleApply_modal.
Qed.

End Swatches.

(** ** The materialization of the URLs of the image model *)

Lemma data_url_not_blob d : String.prefix "blob:" (data_url d) = false.
Proof. reflexivity. Qed.

(** X14: a URL returned by [handleApiResponse] is never fetched by
    [urlToFile] but drawn on the canvas; the file made from it has the name
    asked for and the bytes of the canvas blob, and its type is the one of the
    blob, or [image/png] when the blob has none, so never empty. *)
Theorem returned_url_goes_through_canvas (B : Browser)
    (response : GenerateContentResponse) (u filename : string) (fl : File) :
  handleApiResponse response = Returned u →
  urlToFile_in B u filename = Returned fl →
  fileName fl = filename ∧
  fileType fl ≠ EmptyString ∧
  ∃ blob, b_toBlob B u = Some blob ∧
          fileBytes fl = blobBytes blob ∧
          (blobType blob ≠ EmptyString → fileType fl = blobType blob).
Proof.
  intros (_ & d & _ & ->)%handleApiResponse_returned.
  unfold urlToFile_in. rewrite data_url_not_blob.
  destruct (b_image_load B _); [done|].
  destruct (b_context B _); [|done]. cbn.
  destruct (b_toBlob B _) as [blob|]; [|done]. intros [= <-]. cbn.
  split; [done|]. destruct (blobType blob) as [|x t] eqn:Ht; cbn.
  - split; [done|]. exists blob. by rewrite Ht.
  - split; [done|]. exists blob. by rewrite Ht.
Qed.

Lemma batch_leaves_other_keys_witness :
  ∃ m', handleGenerateVariations (Demo.world "{}") (Some Demo.shirt) Demo.loaded
          = (Returned tt, m') ∧
        selectedVariationIndex (modal m') = selectedVariationIndex (modal Demo.loaded) ∧
        ∀ i v, variations (modal Demo.loaded) !! i = Some v →
               hex v ∉ FALLBACK_COLORS →
               variations (modal m') !! i = Some v.
Proof.
  eapply (batch_leaves_other_keys (Demo.world "{}") Demo.shirt
            (original_variation Demo.shirt Demo.shirt_file) Demo.shirt_file
            Demo.loaded _ FALLBACK_COLORS).
  - reflexivity.
  - reflexivity.
  - vm_compute. reflexivity.
Defined.

(** ** The session of the examples *)

Lemma tour_chosen_reachable : reachable Tour.world Tour.chosen.
Proof.
  apply reach_select, reach_generate, reach_item, reach_mounted.
Qed.

Lemma tour_clicked_reachable : ui_reachable Tour.world Tour.clicked.
Proof.
  apply ui_swatch, ui_generate, ui_item, ui_mounted.
Qed.

Lemma returned_url_is_sent_back_witness :
  generatePoseVariation Tour.world "data:image/png;base64,AAAA" "side view"
    Demo.loaded
  = (answer <- generateContent Tour.world
                 (mkRequest imageModel [Demo.png] (posePrompt "side view") false) ;;
     lift (handleApiResponse answer)) Demo.loaded.
Proof.
  exact (proj2 (returned_url_is_sent_back Tour.world Demo.image_response
                  "data:image/png;base64,AAAA" Demo.png eq_refl eq_refl eq_refl)
           "side view" Demo.loaded).
Defined.

Lemma malformed_url_is_rejected_first_witness :
  ∃ e, generateVirtualTryOnImage Tour.world "blob:shirt" Demo.shirt_file Demo.loaded
         = (Thrown e, Demo.loaded) ∧
       generatePoseVariation Tour.world "blob:shirt" "side view" Demo.loaded
         = (Thrown e, Demo.loaded).
Proof.
  apply (malformed_url_is_rejected_first Tour.world "blob:shirt" Demo.shirt_file
           "side view" Demo.loaded).
  left. reflexivity.
Defined.

Lemma image_requests_return_data_urls_witness :
  ∃ p, w_fileToPart Tour.world (clock Demo.loaded) Demo.shirt_file = Some p ∧
       answered_with Tour.world (S (clock Demo.loaded))
         (mkRequest imageModel [p] modelPrompt false)
         "data:image/png;base64,AAAA".
Proof.
  eapply (proj1 (image_requests_return_data_urls Tour.world Demo.loaded _ _)
            Demo.shirt_file).
  vm_compute. reflexivity.
Defined.

Lemma reachable_is_settled_witness :
  isGenerating (modal Tour.chosen) = false ∧
  (∀ v, v ∈ variations (modal Tour.chosen) → status v ≠ S_generating) ∧
  click_generate Tour.world false (Some Demo.shirt) Tour.chosen
    = handleGenerateVariations Tour.world (Some Demo.shirt) Tour.chosen.
Proof.
  exact (reachable_is_settled Tour.world false (Some Demo.shirt) Tour.chosen
           tour_chosen_reachable).
Defined.

Lemma reachable_eligible_is_applied_witness :
  ∃ garmentFile,
    file (mkVariation "#111111" "data:image/png;base64,AAAA"
            (Some (mkFile "Shirt-#111111.png" "image/png"
                          "data:image/png;base64,AAAA")) S_done)
      = Some garmentFile ∧
    handleApply (Some Demo.shirt) Tour.chosen
      = (Returned tt,
         mkMachine (modal Tour.chosen) (clock Tour.chosen)
           (trace Tour.chosen
              ++ [EvOnApply garmentFile
                    (derived_info Demo.shirt
                       (mkVariation "#111111" "data:image/png;base64,AAAA"
                          (Some (mkFile "Shirt-#111111.png" "image/png"
                                        "data:image/png;base64,AAAA")) S_done))])).
Proof.
  apply (reachable_eligible_is_applied Tour.world Demo.shirt Tour.chosen _
           tour_chosen_reachable).
  - vm_compute. reflexivity.
  - right. reflexivity.
Defined.

Lemma reachable_original_comes_first_witness :
  ∃ first f,
    variations (modal Tour.chosen) !! 0 = Some first ∧
    hex first = "original" ∧
    file first = Some f ∧
    handleGenerateVariations Tour.world (Some Demo.shirt) Tour.chosen
      = generate_batch Tour.world Demo.shirt f Tour.chosen ∧
    ∀ i v, variations (modal Tour.chosen) !! i = Some v →
           status v = S_original → i = 0.
Proof.
  apply (reachable_original_comes_first Tour.world Demo.shirt Tour.chosen
           tour_chosen_reachable).
  vm_compute. discriminate.
Defined.


Lemma ui_selection_stays_in_range_witness :
  (variations (modal Tour.clicked) = [] ∧
   selectedVariationIndex (modal Tour.clicked) = 0)
  ∨ is_Some (variations (modal Tour.clicked)
               !! selectedVariationIndex (modal Tour.clicked)).
Proof.
  exact (ui_selection_stays_in_range Tour.world Tour.clicked tour_clicked_reachable).
Defined.

Lemma returned_url_goes_through_canvas_witness :
  fileName (mkFile "Shirt-#111111.png" "image/png" "data:image/png;base64,AAAA")
    = "Shirt-#111111.png" ∧
  fileType (mkFile "Shirt-#111111.png" "image/png" "data:image/png;base64,AAAA")
    ≠ EmptyString ∧
  ∃ blob, b_toBlob Tour.browser "data:image/png;base64,AAAA" = Some blob ∧
          fileBytes (mkFile "Shirt-#111111.png" "image/png"
                            "data:image/png;base64,AAAA") = blobBytes blob ∧
          (blobType blob ≠ EmptyString →
           fileType (mkFile "Shirt-#111111.png" "image/png"
                            "data:image/png;base64,AAAA") = blobType blob).
Proof.
  apply (returned_url_goes_through_canvas Tour.browser Demo.image_response
           "data:image/png;base64,AAAA" "Shirt-#111111.png").
  - reflexivity.
  - reflexivity.
Defined.

Lemma batch_recolours_each_colour_once_witness :
  ∃ m', handleGenerateVariations Tour.world (Some Demo.shirt) Demo.loaded
          = (Returned tt, m') ∧
        recolor_requests (trace m') = ["#111111"; "#222222"; "#111111"].
Proof.
  exact (batch_recolours_each_colour_once Tour.world Demo.shirt
           (original_variation Demo.shirt Demo.shirt_file) Demo.shirt_file
           Demo.loaded eq_refl eq_refl).
Defined.

(** ** More about the suggestion call and repeated colours *)

(** X17: when the answer of the model has a text whose trimmed form parses
    to an object with a non-empty array under [colors], [getHarmonicColors]
    returns exactly this array and writes nothing to the console; when the
    answer cannot be read so, it returns the fallback and reports the
    failure on the console. *)
Theorem suggestions_are_taken_as_given (W : World) (f : File) (m : Machine)
    (response : GenerateContentResponse) :
  response_received W f (clock m) = Some response →
  (∀ t fields cs,
     text response = Some t →
     w_JSON_parse W (trim t) = Some (JObject fields) →
     lookup_field "colors" fields = Some (JArray cs) →
     cs ≠ [] →
     getHarmonicColors W f m
     = (Returned cs,
        mkMachine (modal m) (S (S (clock m)))
                  (trace m ++ [EvGetHarmonicColors f]))) ∧
  (∀ e,
     parse_colors W response = Thrown e →
     getHarmonicColors W f m
     = (Returned FALLBACK_COLORS,
        mkMachine (modal m) (S (S (clock m)))
                  ((trace m ++ [EvGetHarmonicColors f])
                   ++ [EvConsoleError ("Failed to parse harmonic colors JSON: " +:+ e)]))).
Proof.
  unfold response_received. intros Hr.
  destruct (w_fileToPart W (clock m) f) as [part|] eqn:Hp; [|done].
  split.
  - intros t fields cs Ht Hj Hc Hne.
    assert (parse_colors W response = Returned cs) as Hparse.
    { unfold parse_colors. rewrite Ht, Hj. cbn. rewrite Hc.
      destruct cs; [done|]. reflexivity. }
    unfold_js. cbn. rewrite Hp. cbn. rewrite Hr. cbn. by rewrite Hparse.
  - intros e He. unfold_js. cbn. rewrite Hp. cbn. rewrite Hr. cbn. by rewrite He.
Qed.

Lemma suggestions_are_taken_as_given_witness :
  getHarmonicColors Tour.world Demo.shirt_file Demo.loaded
  = (Returned ["#111111"; "#222222"; "#111111"],
     mkMachine (modal Demo.loaded) (S (S (clock Demo.loaded)))
               (trace Demo.loaded ++ [EvGetHarmonicColors Demo.shirt_file])).
Proof.
  apply (proj1 (suggestions_are_taken_as_given Tour.world Demo.shirt_file
                  Demo.loaded (Demo.text_response " {colors} ") eq_refl)
           " {colors} "
           [("colors", JArray ["#111111"; "#222222"; "#111111"])]).
  - reflexivity.
  - reflexivity.
  - reflexivity.
  - discriminate.
Defined.

(** X18: a colour that comes a second time in a batch is recoloured again,
    but when this second recolouring succeeds its result is dropped: after the
    first time no variant of this key is in status generating, and the
    success update changes no variant. *)
Theorem repeated_colour_result_is_dropped (W : World) (it : WardrobeItem)
    (f : File) (m0 : Machine) (pre mid : list string) (c u : string) (fl : File) :
  let before := snd (for_of (pre ++ c :: mid) (generate_one W it f) m0) in
  let after := snd (generate_one W it f c before) in
  fst (recolour W it f c before) = Returned (u, fl) →
  variations (modal after) = variations (modal before) ∧
  recolor_requests (trace after) = recolor_requests (trace before) ++ [c].
Proof.
  cbv zeta.
  destruct (for_of_generate W it f (pre ++ c :: mid) m0) as (mb & Hloop & Hev & _).
  rewrite Hloop. cbn [snd]. intros Hok.
  destruct (recolour W it f c mb) as [r m1] eqn:Hr. cbn in Hok. subst r.
  destruct (recolour_frame W _ _ _ _ _ _ Hr) as [Hm Ht].
  rewrite (generate_one_done W it f c mb u fl m1 Hr). cbn. rewrite Hm.
  split; [|exact Ht].
  rewrite <- (list_fmap_id (variations (modal mb))) at 2.
  apply list_fmap_ext. intros i v' Hi.
  destruct (Forall2_lookup_r _ _ _ _ _ Hev Hi) as (v & _ & Hevv).
  unfold mark_done.
  destruct (String.eqb (hex v') c) eqn:Hc; [|done].
  destruct (status v') eqn:Hs; try done. exfalso.
  destruct (ev_generating _ _ _ Hevv Hs) as [_ Hn].
  apply String.eqb_eq in Hc. apply Hn.
  rewrite <- (ev_hex _ _ _ Hevv), Hc. apply elem_of_app. right. by left.
Qed.

Lemma repeated_colour_result_is_dropped_witness :
  let before :=
    snd (for_of ["#111111"; "#222222"] (generate_one Tour.world Demo.shirt Demo.shirt_file)
           (batch_appended ["#111111"; "#222222"; "#111111"] Demo.loaded)) in
  let after :=
    snd (generate_one Tour.world Demo.shirt Demo.shirt_file "#111111" before) in
  variations (modal after) = variations (modal before) ∧
  recolor_requests (trace after) = recolor_requests (trace before) ++ ["#111111"].
Proof.
  cbv zeta.
  eapply (repeated_colour_result_is_dropped Tour.world Demo.shirt Demo.shirt_file
            (batch_appended ["#111111"; "#222222"; "#111111"] Demo.loaded)
            [] ["#222222"] "#111111").
  vm_compute. reflexivity.
Defined.
